(** * Web3RSVP: the event registry contract

    A shallow embedding of the Sway contract [rsvpContract] (ABI
    [event_platform.sw], implementation [main.sw], both listed in the
    repository's README) and the properties of its three entry points
    [create_event], [rsvp] and [get_rsvp].

    Correspondence with the vocabulary of the specification:
    - [rsvp] is the specification's [register],
      [get_rsvp] its [get_registration_count];
    - [event_id_counter] is [next_id], [unique_id] is [id],
      [num_of_rsvps] is [registration_count];
    - [InvalidEventID], [IncorrectAssetId], [NotEnoughTokens] are
      [InvalidEventId], [WrongAsset], [InsufficientPayment]. *)

From stdpp Require Import gmap strings.
From Stdlib Require Import NArith Lia.

Local Open Scope N_scope.

(** ** Machine integers

    Every integer of the contract is a [u64].  The FuelVM traps on
    arithmetic overflow: an [add] or [sub] whose result leaves the range
    panics, and the panic reverts the transaction. *)

Definition U64_MAX : N := 2 ^ 64 - 1.

Definition checked_add (a b : N) : option N :=
  if a + b <=? U64_MAX then Some (a + b) else None.

Definition checked_sub (a b : N) : option N :=
  if b <=? a then Some (a - b) else None.

(** ** Data model ([event_platform.sw]) *)

(** [b256] values (addresses, contract and asset identifiers). *)
Definition b256 : Type := N.

(** [std::identity::Identity]: [Address] is the first variant, so it is
    the one a zeroed storage slot decodes to. *)
Inductive Identity : Type :=
| Address (value : b256)
| ContractId (value : b256).

(** [std::constants::BASE_ASSET_ID] is the zero identifier. *)
Definition BASE_ASSET_ID : b256 := 0.

Record Event : Type := mkEvent {
  unique_id : N;
  max_capacity : N;
  deposit : N;
  owner : Identity;
  name : string;
  num_of_rsvps : N
}.

(** The ten NUL bytes of an unset [str[10]]. *)
Definition zero_name : string :=
  String.string_of_list_ascii (replicate 10 Ascii.zero).

(** What a read of never-written storage decodes to. *)
Definition zero_event : Event :=
  {| unique_id := 0; max_capacity := 0; deposit := 0;
     owner := Address 0; name := zero_name; num_of_rsvps := 0 |}.

(** The [storage] block of [main.sw]. *)
Record Storage : Type := mkStorage {
  events : gmap N Event;
  event_id_counter : N
}.

Definition initial_storage : Storage :=
  {| events := ∅; event_id_counter := 0 |}.

Inductive InvalidRSVPError : Type :=
| IncorrectAssetId
| NotEnoughTokens
| InvalidEventID.

(** Why a call stopped: a failed [require], [unwrap] of an [Err], an
    arithmetic panic of the VM, or a failing [transfer]. *)
Inductive Abort : Type :=
| RequireFailed (e : InvalidRSVPError)
| UnwrapFailed
| ArithmeticOverflow
| TransferFailed.

(** The ambient values a call reads: [msg_sender()], which is a
    [Result], [msg_asset_id()] and [msg_amount()]. *)
Record CallContext : Type := mkContext {
  msg_sender : option Identity;
  msg_asset_id : b256;
  msg_amount : N
}.

Inductive Result (A : Type) : Type :=
| Ok (a : A)
| Err (e : Abort).
Arguments Ok {A} a.
Arguments Err {A} e.

(** ** The contract, over an arbitrary value-transfer primitive *)

Section Contract.

(** [Bank] is whatever the ledger of coins looks like to the contract;
    [transfer amount asset_id to] is [std::token::transfer], which
    either moves the coins or reverts ([None]). *)
Variable Bank : Type.
Variable transfer : N → b256 → Identity → Bank → option Bank.

Record World : Type := mkWorld {
  storage : Storage;
  bank : Bank
}.

(** A freshly deployed contract. *)
Definition deploy (b : Bank) : World :=
  {| storage := initial_storage; bank := b |}.

(** The body of an entry point runs on the world and either finishes
    with a value or stops; in both cases it carries the world as it is
    at that point, so that [Reverted e w] records what had been written
    when the call stopped. *)
Inductive Outcome (A : Type) : Type :=
| Done (a : A) (w : World)
| Reverted (e : Abort) (w : World).
Arguments Done {A} a w.
Arguments Reverted {A} e w.

Definition Tx (A : Type) : Type := World → Outcome A.

Definition ret {A} (a : A) : Tx A := λ w, Done a w.

Definition bind {A B} (m : Tx A) (k : A → Tx B) : Tx B :=
  λ w, match m w with
       | Done a w' => k a w'
       | Reverted e w' => Reverted e w'
       end.

Definition revert {A} (e : Abort) : Tx A := λ w, Reverted e w.

Local Notation "'let!' x ':=' m 'in' k" := (bind m (λ x, k))
  (at level 10, x name, m at level 100, k at level 200).
Local Notation "'exec!' m 'in' k" := (bind m (λ _, k))
  (at level 10, m at level 100, k at level 200).

(** [require(condition, value)] *)
Definition require (condition : bool) (e : InvalidRSVPError) : Tx unit :=
  if condition then ret tt else revert (RequireFailed e).

(** [Result::unwrap] *)
Definition unwrap {A} (r : option A) : Tx A :=
  match r with
  | Some a => ret a
  | None => revert UnwrapFailed
  end.

(** [+] and [-] on [u64] *)
Definition add (a b : N) : Tx N :=
  match checked_add a b with
  | Some c => ret c
  | None => revert ArithmeticOverflow
  end.

Definition sub (a b : N) : Tx N :=
  match checked_sub a b with
  | Some c => ret c
  | None => revert ArithmeticOverflow
  end.

(** [storage.event_id_counter], read and written *)
Definition read_counter : Tx N :=
  λ w, Done (event_id_counter (storage w)) w.

Definition write_counter (n : N) : Tx unit :=
  λ w, Done tt {| storage := {| events := events (storage w);
                                event_id_counter := n |};
                  bank := bank w |}.

(** [StorageMap::get]: no existence check, an absent key reads as the
    zeroed value. *)
Definition lookup_event (key : N) (s : Storage) : Event :=
  default zero_event (events s !! key).

Definition events_get (key : N) : Tx Event :=
  λ w, Done (lookup_event key (storage w)) w.

(** [StorageMap::insert] *)
Definition events_insert (key : N) (value : Event) : Tx unit :=
  λ w, Done tt {| storage := {| events := <[key := value]> (events (storage w));
                                event_id_counter := event_id_counter (storage w) |};
                  bank := bank w |}.

(** [std::token::transfer] *)
Definition do_transfer (amount : N) (asset_id : b256) (to : Identity) : Tx unit :=
  λ w, match transfer amount asset_id to (bank w) with
       | Some b => Done tt {| storage := storage w; bank := b |}
       | None => Reverted TransferFailed w
       end.

(** *** [fn create_event(capacity, price, event_name) -> Event] *)
Definition create_event (capacity price : N) (event_name : string)
    (ctx : CallContext) : Tx Event :=
  let! campaign_id := read_counter in
  let! sender := unwrap (msg_sender ctx) in
  let new_event :=
    {| unique_id := campaign_id;
       max_capacity := capacity;
       deposit := price;
       owner := sender;
       name := event_name;
       num_of_rsvps := 0 |} in
  exec! events_insert campaign_id new_event in
  let! c := read_counter in
  let! c' := add c 1 in
  exec! write_counter c' in
  let! c'' := read_counter in
  let! last := sub c'' 1 in
  let! selectedEvent := events_get last in
  ret selectedEvent.

(** [selected_event.num_of_rsvps += 1] on the local copy *)
Definition with_num_of_rsvps (n : N) (e : Event) : Event :=
  {| unique_id := unique_id e;
     max_capacity := max_capacity e;
     deposit := deposit e;
     owner := owner e;
     name := name e;
     num_of_rsvps := n |}.

(** The same record with another capacity. *)
Definition with_max_capacity (capacity : N) (e : Event) : Event :=
  {| unique_id := unique_id e;
     max_capacity := capacity;
     deposit := deposit e;
     owner := owner e;
     name := name e;
     num_of_rsvps := num_of_rsvps e |}.

(** Two records that agree on everything but the count. *)
Definition same_but_count (e e' : Event) : Prop :=
  unique_id e' = unique_id e ∧ owner e' = owner e ∧ name e' = name e ∧
  deposit e' = deposit e ∧ max_capacity e' = max_capacity e.

(** *** [fn rsvp(event_id) -> Event] *)
Definition rsvp (event_id : N) (ctx : CallContext) : Tx Event :=
  let! sender := unwrap (msg_sender ctx) in
  let asset_id := msg_asset_id ctx in
  let amount := msg_amount ctx in
  let! selected_event := events_get event_id in
  let! c := read_counter in
  exec! require (unique_id selected_event <? c) InvalidEventID in
  exec! require (asset_id =? BASE_ASSET_ID) IncorrectAssetId in
  exec! require (deposit selected_event <=? amount) NotEnoughTokens in
  exec! do_transfer amount asset_id (owner selected_event) in
  let! n := add (num_of_rsvps selected_event) 1 in
  let selected_event := with_num_of_rsvps n selected_event in
  exec! events_insert event_id selected_event in
  ret selected_event.

(** *** [fn get_rsvp(event_id) -> Event] *)
Definition get_rsvp (event_id : N) (ctx : CallContext) : Tx Event :=
  let! selected_event := events_get event_id in
  ret selected_event.

(** ** Transactions

    A call that finishes commits its world; a call that stops is rolled
    back as a whole, and the caller sees the reason. *)
Definition call {A} (m : Tx A) (w : World) : World * Result A :=
  match m w with
  | Done a w' => (w', Ok a)
  | Reverted e _ => (w, Err e)
  end.

(** The three entry points as requests, so that histories of calls
    can be replayed. *)
Inductive Request : Type :=
| CreateEvent (capacity price : N) (event_name : string)
| Rsvp (event_id : N)
| GetRsvp (event_id : N).

Definition dispatch (r : Request) (ctx : CallContext) : Tx Event :=
  match r with
  | CreateEvent capacity price event_name =>
      create_event capacity price event_name ctx
  | Rsvp event_id => rsvp event_id ctx
  | GetRsvp event_id => get_rsvp event_id ctx
  end.

(** One transaction, and a history of them, keeping each result. *)
Definition step (rc : Request * CallContext) (w : World)
    : World * Result Event :=
  call (dispatch (fst rc) (snd rc)) w.

Fixpoint replay (history : list (Request * CallContext)) (w : World)
    : World * list (Request * Result Event) :=
  match history with
  | [] => (w, [])
  | rc :: rest =>
      let '(w1, r) := step rc w in
      let '(w2, rs) := replay rest w1 in
      (w2, (fst rc, r) :: rs)
  end.

(** The worlds a deployed contract can be in. *)
Inductive reachable : World → Prop :=
| reachable_deploy (b : Bank) : reachable (deploy b)
| reachable_step (rc : Request * CallContext) (w : World) :
    reachable w → reachable (fst (step rc w)).

(** A world with one more record, a given counter and a given bank. *)
Definition world_with (key : N) (e : Event) (counter : N) (b : Bank)
    (w : World) : World :=
  {| storage := {| events := <[key := e]> (events (storage w));
                   event_id_counter := counter |};
     bank := b |}.

(** Every identifier below the counter has a record, which carries that
    identifier; and every record passes the identifier check of [rsvp]. *)
Definition consistent (w : World) : Prop :=
  (∀ k, k < event_id_counter (storage w) →
     is_Some (events (storage w) !! k)) ∧
  (∀ k e, events (storage w) !! k = Some e →
     unique_id e < event_id_counter (storage w) ∧
     (k < event_id_counter (storage w) → unique_id e = k)).

(** The identifiers handed out by the successful [create_event] calls
    of a history, in call order. *)
Fixpoint issued_ids (results : list (Request * Result Event)) : list N :=
  match results with
  | [] => []
  | (CreateEvent _ _ _, Ok e) :: rest => unique_id e :: issued_ids rest
  | _ :: rest => issued_ids rest
  end.

End Contract.

Arguments mkWorld {Bank} storage bank.
Arguments storage {Bank} w.
Arguments bank {Bank} w.
Arguments deploy {Bank} b.
Arguments Done {Bank A} a w.
Arguments Reverted {Bank A} e w.
Arguments create_event {Bank} capacity price event_name ctx w.
Arguments rsvp {Bank} transfer event_id ctx w.
Arguments get_rsvp {Bank} event_id ctx w.
Arguments call {Bank A} m w.
Arguments dispatch {Bank} transfer r ctx w.
Arguments step {Bank} transfer rc w.
Arguments replay {Bank} transfer history w.
Arguments reachable {Bank} transfer w.
Arguments world_with {Bank} key e counter b w.
Arguments consistent {Bank} w.

(** The record [create_event] builds. *)
Definition fresh_event (id capacity price : N) (who : Identity)
    (event_name : string) : Event :=
  {| unique_id := id; max_capacity := capacity; deposit := price;
     owner := who; name := event_name; num_of_rsvps := 0 |}.

(** The number of registrations for [key] that a history committed. *)
Fixpoint registrations (key : N) (results : list (Request * Result Event))
    : nat :=
  match results with
  | [] => 0
  | (Rsvp event_id, Ok _) :: rest =>
      ((if (event_id =? key)%N then 1 else 0) + registrations key rest)%nat
  | _ :: rest => registrations key rest
  end.

(** The shape of a record that was never created: the zeroed record, up
    to its count. *)
Definition zeroed_but_count (e : Event) : Prop :=
  unique_id e = 0 ∧ max_capacity e = 0 ∧ deposit e = 0 ∧
  owner e = Address 0 ∧ name e = zero_name.

(** ** The web client ([frontend/src/App.tsx])

    The RSVP half of the page.  What the page takes from the [fuels] SDK
    is kept as it is used there: the transactions are signed with one
    wallet, which is therefore the sender of every call; [forward] with
    an amount alone attaches that amount of the base asset; [.get()]
    reads without submitting anything and [.call()] submits and throws
    when the transaction reverts.  The number typed into the event field
    is taken as parsed. *)
Section Client.

Variable Bank : Type.
Variable transfer : N → b256 → Identity → Bank → option Bank.

(** The wallet built from [WALLET_SECRET]. *)
Variable wallet : Identity.

(** [BN.toNumber], which throws on a number that a JavaScript number
    cannot hold. *)
Variable toNumber : N → option N.

(** The state variables that [rsvpToEvent] sets. *)
Record AppState : Type := mkAppState {
  loading : bool;
  eventName : string;
  maxCap : N;
  rsvpConfirmed : bool;
  numOfRSVPs : N;
  eventId : N
}.

Definition setLoading (v : bool) (ui : AppState) : AppState :=
  {| loading := v; eventName := eventName ui; maxCap := maxCap ui;
     rsvpConfirmed := rsvpConfirmed ui; numOfRSVPs := numOfRSVPs ui;
     eventId := eventId ui |}.

Definition setEventName (v : string) (ui : AppState) : AppState :=
  {| loading := loading ui; eventName := v; maxCap := maxCap ui;
     rsvpConfirmed := rsvpConfirmed ui; numOfRSVPs := numOfRSVPs ui;
     eventId := eventId ui |}.

Definition setMaxCap (v : N) (ui : AppState) : AppState :=
  {| loading := loading ui; eventName := eventName ui; maxCap := v;
     rsvpConfirmed := rsvpConfirmed ui; numOfRSVPs := numOfRSVPs ui;
     eventId := eventId ui |}.

Definition setRSVPConfirmed (v : bool) (ui : AppState) : AppState :=
  {| loading := loading ui; eventName := eventName ui; maxCap := maxCap ui;
     rsvpConfirmed := v; numOfRSVPs := numOfRSVPs ui;
     eventId := eventId ui |}.

Definition setNumOfRSVPs (v : N) (ui : AppState) : AppState :=
  {| loading := loading ui; eventName := eventName ui; maxCap := maxCap ui;
     rsvpConfirmed := rsvpConfirmed ui; numOfRSVPs := v;
     eventId := eventId ui |}.

Definition setEventId (v : N) (ui : AppState) : AppState :=
  {| loading := loading ui; eventName := eventName ui; maxCap := maxCap ui;
     rsvpConfirmed := rsvpConfirmed ui; numOfRSVPs := numOfRSVPs ui;
     eventId := v |}.

(** What the [try] block can throw, and the one [alert] of a run. *)
Inductive Thrown : Type :=
| TxReverted (e : Abort)
| NumberTooLarge.

Inductive Alert : Type :=
| RsvpSuccessful
| Failed (err : Thrown).

(** The context of a call made by the page with [amount] forwarded. *)
Definition forward (amount : N) : CallContext :=
  {| msg_sender := Some wallet; msg_asset_id := BASE_ASSET_ID;
     msg_amount := amount |}.

(** [async function rsvpToEvent()].  The event id is the one of the
    render in which the button was clicked: the [setEventId] of the
    handler does not change the id it calls with. *)
Definition rsvpToEvent (ui : AppState) (w : World Bank)
    : World Bank * AppState * Alert :=
  let typed_id := eventId ui in
  let ui := setLoading true ui in
  let '(w, ui, shown) :=
    match call (get_rsvp typed_id (forward 0)) w with
    | (_, Err e) => (w, ui, Failed (TxReverted e))
    | (_, Ok eventData) =>
        let requiredAmountToRSVP := deposit eventData in
        let ui := setEventId (unique_id eventData) ui in
        match toNumber (max_capacity eventData) with
        | None => (w, ui, Failed NumberTooLarge)
        | Some capacity =>
            let ui := setMaxCap capacity ui in
            let ui := setEventName (name eventData) ui in
            match call (rsvp transfer typed_id (forward requiredAmountToRSVP)) w with
            | (_, Err e) => (w, ui, Failed (TxReverted e))
            | (w', Ok eventRSVP) =>
                match toNumber (num_of_rsvps eventRSVP) with
                | None => (w', ui, Failed NumberTooLarge)
                | Some count =>
                    let ui := setNumOfRSVPs count ui in
                    let ui := setRSVPConfirmed true ui in
                    (w', ui, RsvpSuccessful)
                end
            end
        end
    end in
  (w, setLoading false ui, shown).

End Client.

Arguments rsvpToEvent {Bank} transfer wallet toNumber ui w.

(** ** A concrete ledger

    For running the contract on examples: the bank is the list of
    payouts made so far, most recent first, and a transfer of zero coins
    is refused, as the VM does. *)
Module Ledger.

Record Payout : Type := mkPayout {
  payee : Identity;
  asset : b256;
  coins : N
}.

Definition Bank : Type := list Payout.

Definition transfer (amount : N) (asset_id : b256) (to : Identity)
    (b : Bank) : option Bank :=
  if amount =? 0 then None
  else Some ({| payee := to; asset := asset_id; coins := amount |} :: b).

Definition alice : Identity := Address 10.
Definition bob : Identity := Address 11.

(** A call by [who] with [amount] coins of [asset_id] attached. *)
Definition paying (who : Identity) (asset_id : b256) (amount : N) : CallContext :=
  {| msg_sender := Some who; msg_asset_id := asset_id; msg_amount := amount |}.

(** A call whose caller does not resolve: [msg_sender()] is an [Err]. *)
Definition unresolved (asset_id : b256) (amount : N) : CallContext :=
  {| msg_sender := None; msg_asset_id := asset_id; msg_amount := amount |}.

(** Labels are [str[10]]: ten bytes, padded with spaces here. *)
Definition meetup_name : string := "Meetup    ".
Definition free_name : string := "Free      ".

(** Scenario 1 of the specification: a fresh registry in which Alice
    creates the event "Meetup". *)
Definition meetup : Request := CreateEvent 50 10 meetup_name.

Definition w0 : World Bank := deploy [].
Definition w1 : World Bank := fst (step transfer (meetup, paying alice 0 0) w0).

(** The record of "Meetup" once [n] registrations have been counted. *)
Definition meetup_event (n : N) : Event :=
  {| unique_id := 0; max_capacity := 50; deposit := 10;
     owner := alice; name := meetup_name; num_of_rsvps := n |}.

(** A registry whose counter has reached the last [u64]. *)
Definition w_last_id : World Bank :=
  {| storage := {| events := ∅; event_id_counter := U64_MAX |};
     bank := [] |}.

(** A registry whose only event has counted [n] registrations. *)
Definition w_count (n : N) : World Bank :=
  {| storage := {| events := {[ 0 := meetup_event n ]};
                   event_id_counter := 1 |};
     bank := [] |}.

(** A registry whose only event is free of charge and has no seats. *)
Definition free_event : Event :=
  {| unique_id := 0; max_capacity := 0; deposit := 0;
     owner := alice; name := free_name; num_of_rsvps := 0 |}.

Definition w_free : World Bank :=
  fst (step transfer (CreateEvent 0 0 free_name, paying alice 0 0) w0).

(** What is stored under key 99 once a registration for it went
    through: the zeroed record, counted once. *)
Definition phantom : Event :=
  {| unique_id := 0; max_capacity := 0; deposit := 0;
     owner := Address 0; name := zero_name; num_of_rsvps := 1 |}.

(** The registry after Bob's registration for the never-issued id 99. *)
Definition w_phantom : World Bank :=
  fst (step transfer (Rsvp 99, paying bob 0 10) w1).

(** Three attempts to register for event 0, the second one underpaid,
    around a read. *)
Definition busy_history : list (Request * CallContext) :=
  [ (Rsvp 0, paying bob 0 10);
    (Rsvp 0, paying bob 0 5);
    (GetRsvp 0, paying bob 0 0);
    (Rsvp 0, paying alice 0 12) ].

(** Two events created around a registration for a never-issued id and
    a [create_event] whose caller does not resolve. *)
Definition mixed_history : list (Request * CallContext) :=
  [ (meetup, paying alice 0 0);
    (Rsvp 99, paying bob 0 10);
    (CreateEvent 5 1 free_name,
     {| msg_sender := None; msg_asset_id := 0; msg_amount := 0 |});
    (CreateEvent 0 0 free_name, paying bob 0 0) ].

(** [BN.toNumber] accepts what fits in 53 bits. *)
Definition to_number (n : N) : option N :=
  if n <? 2 ^ 53 then Some n else None.

(** The page as it is first rendered, with 0 typed as event id. *)
Definition first_render : AppState :=
  {| loading := false; eventName := ""; maxCap := 0;
     rsvpConfirmed := false; numOfRSVPs := 0; eventId := 0 |}.

End Ledger.

(** ** Arithmetic of the checked operations *)

Lemma checked_add_Some (a b : N) :
  a + b ≤ U64_MAX → checked_add a b = Some (a + b).
Proof.
  intros H. unfold checked_add.
  destruct (N.leb_spec (a + b) U64_MAX); [reflexivity | lia].
Qed.

Lemma checked_add_None (a b : N) :
  U64_MAX < a + b → checked_add a b = None.
Proof.
  intros H. unfold checked_add.
  destruct (N.leb_spec (a + b) U64_MAX); [lia | reflexivity].
Qed.

Lemma checked_sub_succ (a : N) : checked_sub (a + 1) 1 = Some a.
Proof.
  unfold checked_sub.
  destruct (N.leb_spec 1 (a + 1)); [f_equal; lia | lia].
Qed.

(** ** What each entry point computes *)

Section Equations.

Context {Bank : Type} (transfer : N → b256 → Identity → Bank → option Bank).

Implicit Types (w : World Bank) (ctx : CallContext) (e : Event).

Lemma create_event_unfold capacity price event_name ctx w :
  create_event capacity price event_name ctx w =
    let c := event_id_counter (storage w) in
    match msg_sender ctx with
    | None => Reverted UnwrapFailed w
    | Some who =>
        let e := fresh_event c capacity price who event_name in
        if c + 1 <=? U64_MAX
        then Done e (world_with c e (c + 1) (bank w) w)
        else Reverted ArithmeticOverflow (world_with c e c (bank w) w)
    end.
Proof.
  unfold create_event, bind, unwrap, read_counter, events_insert, add, sub,
    write_counter, events_get, lookup_event, ret, revert, checked_add.
  cbn [storage bank events event_id_counter].
  destruct (msg_sender ctx) as [who|]; [|reflexivity].
  destruct (N.leb_spec (event_id_counter (storage w) + 1) U64_MAX) as [Hle|Hgt];
    [|reflexivity].
  cbn [storage bank events event_id_counter].
  rewrite checked_sub_succ.
  cbn [storage bank events event_id_counter].
  rewrite lookup_insert_eq. reflexivity.
Qed.

Lemma rsvp_unfold event_id ctx w :
  rsvp transfer event_id ctx w =
    let e := lookup_event event_id (storage w) in
    match msg_sender ctx with
    | None => Reverted UnwrapFailed w
    | Some _ =>
        if negb (unique_id e <? event_id_counter (storage w))
        then Reverted (RequireFailed InvalidEventID) w
        else if negb (msg_asset_id ctx =? BASE_ASSET_ID)
        then Reverted (RequireFailed IncorrectAssetId) w
        else if negb (deposit e <=? msg_amount ctx)
        then Reverted (RequireFailed NotEnoughTokens) w
        else
          match transfer (msg_amount ctx) (msg_asset_id ctx) (owner e) (bank w) with
          | None => Reverted TransferFailed w
          | Some b =>
              if num_of_rsvps e + 1 <=? U64_MAX
              then
                let e' := with_num_of_rsvps (num_of_rsvps e + 1) e in
                Done e' (world_with event_id e' (event_id_counter (storage w)) b w)
              else Reverted ArithmeticOverflow (mkWorld (storage w) b)
          end
    end.
Proof.
  unfold rsvp, bind, unwrap, read_counter, events_insert, add, require,
    do_transfer, events_get, ret, revert, checked_add, world_with.
  destruct (msg_sender ctx) as [who|]; [|reflexivity].
  cbn [storage bank events event_id_counter].
  destruct (_ <? _); [|reflexivity].
  destruct (_ =? _); [|reflexivity].
  destruct (_ <=? _); [|reflexivity].
  cbn [negb].
  destruct (transfer _ _ _ _) as [b|]; [|reflexivity].
  cbn [storage bank events event_id_counter].
  destruct (_ <=? _); reflexivity.
Qed.

Lemma get_rsvp_unfold event_id ctx w :
  get_rsvp event_id ctx w = Done (lookup_event event_id (storage w)) w.
Proof. reflexivity. Qed.

End Equations.

(** Projections out of explicitly built worlds. *)
Ltac world_simpl :=
  unfold world_with;
  cbn [fst snd storage bank events event_id_counter negb].

(** ** Invariants of reachable worlds *)

Section Invariants.

Context {Bank : Type} (transfer : N → b256 → Identity → Bank → option Bank).

Implicit Types (w : World Bank) (ctx : CallContext) (e : Event).

Local Abbreviation counter w := (event_id_counter (storage w)).
Local Abbreviation records w := (events (storage w)).

Lemma deploy_consistent (b : Bank) : consistent (deploy b).
Proof.
  split.
  - intros k Hk. cbn in Hk. lia.
  - intros k e He. cbn in He. rewrite lookup_empty in He. discriminate.
Qed.

Lemma create_event_consistent capacity price event_name ctx w :
  consistent w →
  consistent (fst (call (create_event capacity price event_name ctx) w)).
Proof.
  intros [Hdom Hid]. unfold call. rewrite create_event_unfold. cbv zeta.
  destruct (msg_sender ctx) as [who|]; [|split; assumption].
  destruct (N.leb_spec (counter w + 1) U64_MAX) as [Hle|Hgt];
    [|split; assumption].
  split; world_simpl.
  - intros k Hk. destruct (decide (counter w = k)) as [->|Hne].
    + rewrite lookup_insert_eq. eauto.
    + rewrite lookup_insert_ne by assumption. apply Hdom. lia.
  - intros k e. destruct (decide (counter w = k)) as [<-|Hne].
    + rewrite lookup_insert_eq. intros [= <-]. cbn. lia.
    + rewrite lookup_insert_ne by assumption. intros He.
      destruct (Hid k e He) as [Hlt Hk]. split; [lia|].
      intros Hk'. apply Hk. lia.
Qed.

Lemma rsvp_consistent event_id ctx w :
  consistent w → consistent (fst (call (rsvp transfer event_id ctx) w)).
Proof.
  intros [Hdom Hid]. unfold call. rewrite rsvp_unfold. cbv zeta.
  destruct (msg_sender ctx) as [who|]; [|split; assumption].
  destruct (N.ltb_spec (unique_id (lookup_event event_id (storage w))) (counter w))
    as [Hlt|Hge]; [|split; assumption].
  cbn [negb].
  destruct (_ =? _); [|split; assumption].
  destruct (_ <=? _); [|split; assumption].
  cbn [negb].
  destruct (transfer _ _ _ _) as [b|]; [|split; assumption].
  destruct (_ <=? _); [|split; assumption].
  split; world_simpl.
  - intros k Hk. destruct (decide (event_id = k)) as [->|Hne].
    + rewrite lookup_insert_eq. eauto.
    + rewrite lookup_insert_ne by assumption. apply Hdom, Hk.
  - intros k e. destruct (decide (event_id = k)) as [<-|Hne].
    + rewrite lookup_insert_eq. intros [= <-]. cbn. split; [exact Hlt|].
      intros Hk. destruct (Hdom _ Hk) as [e0 He0].
      unfold lookup_event. rewrite He0. cbn. apply (Hid _ _ He0), Hk.
    + rewrite lookup_insert_ne by assumption. apply Hid.
Qed.

Lemma step_consistent rc w :
  consistent w → consistent (fst (step transfer rc w)).
Proof.
  destruct rc as [[capacity price event_name|event_id|event_id] ctx];
    unfold step, dispatch; cbn [fst snd].
  - apply create_event_consistent.
  - apply rsvp_consistent.
  - intros H. exact H.
Qed.

Lemma reachable_consistent w : reachable transfer w → consistent w.
Proof.
  induction 1 as [b|rc w _ IH].
  - apply deploy_consistent.
  - apply step_consistent, IH.
Qed.

(** A stored record of a reachable world passes the identifier check. *)
Lemma reachable_record_id w k e :
  reachable transfer w → records w !! k = Some e → unique_id e < counter w.
Proof.
  intros Hr He. apply (proj2 (reachable_consistent w Hr) k e He).
Qed.

(** The counter never decreases. *)
Lemma step_counter_mono rc w :
  counter w ≤ counter (fst (step transfer rc w)).
Proof.
  destruct rc as [[capacity price event_name|event_id|event_id] ctx];
    unfold step, dispatch, call; cbn [fst snd].
  - rewrite create_event_unfold. cbv zeta.
    destruct (msg_sender ctx); [|cbn; lia].
    destruct (_ <=? _); cbn; lia.
  - rewrite rsvp_unfold. cbv zeta.
    destruct (msg_sender ctx); [|cbn; lia].
    repeat (destruct (negb _); [cbn; lia|]).
    destruct (transfer _ _ _ _); [|cbn; lia].
    destruct (_ <=? _); cbn; lia.
  - cbn. lia.
Qed.

End Invariants.

(** ** Properties of the entry points *)

Section Properties.

Context {Bank : Type} (transfer : N → b256 → Identity → Bank → option Bank).

Implicit Types (w : World Bank) (ctx : CallContext) (e : Event).

Local Abbreviation counter w := (event_id_counter (storage w)).
Local Abbreviation records w := (events (storage w)).

Lemma call_done {A} (m : World Bank → Outcome Bank A) w a w' :
  m w = Done a w' → call m w = (w', Ok a).
Proof. intros H. unfold call. rewrite H. reflexivity. Qed.

Lemma call_reverted {A} (m : World Bank → Outcome Bank A) w reason w' :
  m w = Reverted reason w' → call m w = (w, Err reason).
Proof. intros H. unfold call. rewrite H. reflexivity. Qed.

(** *** [create_event] *)

(** C2, as amended: in every registry whose counter is below the last
    [u64], a [create_event] call by an identified caller gives the new
    record the counter's value as identifier, no registrations and the
    caller as owner, stores it under that identifier, advances the
    counter by exactly one, leaves the bank alone and returns that very
    record. *)
Theorem create_event_issues_next_id capacity price event_name ctx who w :
  msg_sender ctx = Some who →
  counter w < U64_MAX →
  ∃ w',
    call (create_event capacity price event_name ctx) w =
      (w', Ok {| unique_id := counter w; max_capacity := capacity;
                 deposit := price; owner := who; name := event_name;
                 num_of_rsvps := 0 |}) ∧
    records w' =
      <[counter w := {| unique_id := counter w; max_capacity := capacity;
                        deposit := price; owner := who; name := event_name;
                        num_of_rsvps := 0 |}]> (records w) ∧
    counter w' = counter w + 1 ∧
    bank w' = bank w.
Proof.
  intros Hsender Hroom. eexists. split.
  - apply call_done. rewrite create_event_unfold, Hsender. cbv zeta.
    destruct (N.leb_spec (counter w + 1) U64_MAX) as [_|Hgt]; [|lia].
    reflexivity.
  - world_simpl. auto.
Qed.

(** With the counter at the last [u64] the increment traps. *)
Lemma create_event_overflow capacity price event_name ctx who w :
  msg_sender ctx = Some who →
  counter w = U64_MAX →
  call (create_event capacity price event_name ctx) w =
    (w, Err ArithmeticOverflow).
Proof.
  intros Hsender Hlast. unfold call.
  rewrite create_event_unfold, Hsender, Hlast. reflexivity.
Qed.

(** *** [rsvp]: the three checks *)

(** C4, as amended: on a stored event of a reachable registry, for a
    call whose caller resolves, a payment in another asset is refused
    with [IncorrectAssetId] whatever the amount, and a payment in the
    base asset below the deposit is refused with [NotEnoughTokens]; both
    leave the whole world, hence the registration count, as it was.  So
    the asset is checked before the amount.  And while no identifier has
    been issued (the counter is 0), so that every event id fails the
    identifier precondition, every call is refused with [InvalidEventID]
    whatever the asset and the amount: the identifier check comes before
    both. *)
Theorem rsvp_payment_gating event_id ctx who e w :
  msg_sender ctx = Some who →
  reachable transfer w →
  records w !! event_id = Some e →
  (msg_asset_id ctx ≠ BASE_ASSET_ID →
     call (rsvp transfer event_id ctx) w =
       (w, Err (RequireFailed IncorrectAssetId))) ∧
  (msg_asset_id ctx = BASE_ASSET_ID → msg_amount ctx < deposit e →
     call (rsvp transfer event_id ctx) w =
       (w, Err (RequireFailed NotEnoughTokens))) ∧
  (∀ other_id w0,
     counter w0 = 0 →
     call (rsvp transfer other_id ctx) w0 =
       (w0, Err (RequireFailed InvalidEventID))).
Proof.
  intros Hsender Hreach He.
  pose proof (reachable_record_id transfer w event_id e Hreach He) as Hid.
  assert (Hget : lookup_event event_id (storage w) = e)
    by (unfold lookup_event; rewrite He; reflexivity).
  split; [|split].
  - intros Hasset. unfold call.
    rewrite rsvp_unfold, Hsender, Hget. cbv zeta.
    destruct (N.ltb_spec (unique_id e) (counter w)); [|lia].
    destruct (N.eqb_spec (msg_asset_id ctx) BASE_ASSET_ID); [contradiction|].
    reflexivity.
  - intros Hasset Hamount. unfold call.
    rewrite rsvp_unfold, Hsender, Hget. cbv zeta.
    destruct (N.ltb_spec (unique_id e) (counter w)); [|lia].
    destruct (N.eqb_spec (msg_asset_id ctx) BASE_ASSET_ID); [|contradiction].
    destruct (N.leb_spec (deposit e) (msg_amount ctx)); [lia|].
    reflexivity.
  - intros other_id w0 Hnone. unfold call.
    rewrite rsvp_unfold, Hsender, Hnone. cbv zeta.
    destruct (N.ltb_spec (unique_id (lookup_event other_id (storage w0))) 0);
      [lia|].
    reflexivity.
Qed.

(** *** [rsvp]: a registration that goes through *)

(** What [rsvp] does once its three checks have passed. *)
Lemma rsvp_checks_passed event_id ctx who e w :
  msg_sender ctx = Some who →
  lookup_event event_id (storage w) = e →
  unique_id e < counter w →
  msg_asset_id ctx = BASE_ASSET_ID →
  deposit e ≤ msg_amount ctx →
  rsvp transfer event_id ctx w =
    match transfer (msg_amount ctx) (msg_asset_id ctx) (owner e) (bank w) with
    | None => Reverted TransferFailed w
    | Some b =>
        if num_of_rsvps e + 1 <=? U64_MAX
        then Done (with_num_of_rsvps (num_of_rsvps e + 1) e)
               (world_with event_id (with_num_of_rsvps (num_of_rsvps e + 1) e)
                  (counter w) b w)
        else Reverted ArithmeticOverflow (mkWorld (storage w) b)
    end.
Proof.
  intros Hsender Hget Hid Hasset Hamount.
  rewrite rsvp_unfold, Hsender, Hget. cbv zeta.
  destruct (N.ltb_spec (unique_id e) (counter w)); [|lia].
  destruct (N.eqb_spec (msg_asset_id ctx) BASE_ASSET_ID); [|contradiction].
  destruct (N.leb_spec (deposit e) (msg_amount ctx)); [|lia].
  reflexivity.
Qed.

(** C5, as amended: on a stored event of a reachable registry whose
    count is below the last [u64], a call by an identified caller that
    pays in the base asset at least the deposit, and whose transfer goes
    through, hands the whole attached amount to the recorded owner (the
    bank afterwards is the one [transfer] returns for that amount and
    that owner), stores the record with its count raised by exactly one
    and returns that stored record. *)
Theorem rsvp_registers event_id ctx who e b w :
  msg_sender ctx = Some who →
  reachable transfer w →
  records w !! event_id = Some e →
  msg_asset_id ctx = BASE_ASSET_ID →
  deposit e ≤ msg_amount ctx →
  transfer (msg_amount ctx) BASE_ASSET_ID (owner e) (bank w) = Some b →
  num_of_rsvps e < U64_MAX →
  ∃ w',
    call (rsvp transfer event_id ctx) w =
      (w', Ok {| unique_id := unique_id e; max_capacity := max_capacity e;
                 deposit := deposit e; owner := owner e; name := name e;
                 num_of_rsvps := num_of_rsvps e + 1 |}) ∧
    bank w' = b ∧
    records w' =
      <[event_id := {| unique_id := unique_id e;
                       max_capacity := max_capacity e;
                       deposit := deposit e; owner := owner e;
                       name := name e;
                       num_of_rsvps := num_of_rsvps e + 1 |}]> (records w) ∧
    counter w' = counter w.
Proof.
  intros Hsender Hreach He Hasset Hamount Hpaid Hroom.
  pose proof (reachable_record_id transfer w event_id e Hreach He) as Hid.
  assert (Hget : lookup_event event_id (storage w) = e)
    by (unfold lookup_event; rewrite He; reflexivity).
  eexists. split.
  - apply call_done.
    rewrite (rsvp_checks_passed event_id ctx who e w) by assumption.
    rewrite Hasset, Hpaid.
    destruct (N.leb_spec (num_of_rsvps e + 1) U64_MAX); [|lia].
    reflexivity.
  - world_simpl. auto.
Qed.

(** At the last [u64] the count cannot be raised. *)
Lemma rsvp_overflow event_id ctx who e b w :
  msg_sender ctx = Some who →
  lookup_event event_id (storage w) = e →
  unique_id e < counter w →
  msg_asset_id ctx = BASE_ASSET_ID →
  deposit e ≤ msg_amount ctx →
  transfer (msg_amount ctx) BASE_ASSET_ID (owner e) (bank w) = Some b →
  num_of_rsvps e = U64_MAX →
  call (rsvp transfer event_id ctx) w = (w, Err ArithmeticOverflow).
Proof.
  intros Hsender Hget Hid Hasset Hamount Hpaid Hfull. unfold call.
  rewrite (rsvp_checks_passed event_id ctx who e w) by assumption.
  rewrite Hasset, Hpaid, Hfull. reflexivity.
Qed.

(** C9, as amended: [max_capacity] gates nothing.  On a stored event of
    a reachable registry whose count is below the last [u64], a call by
    a caller that resolves, that passes the three checks and whose
    transfer goes through registers, and on an event that is already
    full the count ends above
    the capacity; the same call registers in the same way with any other
    value in place of the event's capacity. *)
Theorem rsvp_ignores_max_capacity event_id ctx who e b w :
  msg_sender ctx = Some who →
  reachable transfer w →
  records w !! event_id = Some e →
  msg_asset_id ctx = BASE_ASSET_ID →
  deposit e ≤ msg_amount ctx →
  transfer (msg_amount ctx) BASE_ASSET_ID (owner e) (bank w) = Some b →
  num_of_rsvps e < U64_MAX →
  (∃ e' w',
     call (rsvp transfer event_id ctx) w = (w', Ok e') ∧
     records w' !! event_id = Some e' ∧
     max_capacity e' = max_capacity e ∧
     num_of_rsvps e' = num_of_rsvps e + 1 ∧
     (max_capacity e ≤ num_of_rsvps e → max_capacity e' < num_of_rsvps e')) ∧
  (∀ capacity, ∃ w',
     call (rsvp transfer event_id ctx)
       (world_with event_id (with_max_capacity capacity e)
          (counter w) (bank w) w) =
       (w', Ok {| unique_id := unique_id e; max_capacity := capacity;
                  deposit := deposit e; owner := owner e; name := name e;
                  num_of_rsvps := num_of_rsvps e + 1 |})).
Proof.
  intros Hsender Hreach He Hasset Hamount Hpaid Hroom.
  pose proof (reachable_record_id transfer w event_id e Hreach He) as Hid.
  split.
  - assert (Hget : lookup_event event_id (storage w) = e)
      by (unfold lookup_event; rewrite He; reflexivity).
    eexists _, _. split; [|split].
    + apply call_done.
      rewrite (rsvp_checks_passed event_id ctx who e w) by assumption.
      rewrite Hasset, Hpaid.
      destruct (N.leb_spec (num_of_rsvps e + 1) U64_MAX); [|lia].
      reflexivity.
    + world_simpl. apply lookup_insert_eq.
    + cbn. repeat split; lia.
  - intros capacity. eexists. apply call_done.
    rewrite (rsvp_checks_passed event_id ctx who
               (with_max_capacity capacity e)); try assumption.
    + world_simpl. cbn [with_max_capacity owner num_of_rsvps].
      rewrite Hasset, Hpaid.
      destruct (N.leb_spec (num_of_rsvps e + 1) U64_MAX); [|lia].
      reflexivity.
    + unfold lookup_event. world_simpl. rewrite lookup_insert_eq. reflexivity.
Qed.

(** *** [rsvp]: a failing transfer *)

(** C6: when the transfer that [rsvp] would make fails, the call stops
    with the world exactly as it found it -- nothing has been counted or
    stored at that point -- and the reason is [TransferFailed] once the
    three checks have passed.  In general a call either commits both the
    payment and the raised count, or commits nothing. *)
Theorem rsvp_transfer_failure_is_clean event_id ctx w :
  transfer (msg_amount ctx) (msg_asset_id ctx)
    (owner (lookup_event event_id (storage w))) (bank w) = None →
  (∃ reason, rsvp transfer event_id ctx w = Reverted reason w) ∧
  (∃ reason, call (rsvp transfer event_id ctx) w = (w, Err reason)) ∧
  (msg_sender ctx ≠ None →
   unique_id (lookup_event event_id (storage w)) < counter w →
   msg_asset_id ctx = BASE_ASSET_ID →
   deposit (lookup_event event_id (storage w)) ≤ msg_amount ctx →
   rsvp transfer event_id ctx w = Reverted TransferFailed w) ∧
  (∀ ctx' w0 w',
     w' = fst (call (rsvp transfer event_id ctx') w0) →
     w' = w0 ∨
     (transfer (msg_amount ctx') (msg_asset_id ctx')
        (owner (lookup_event event_id (storage w0))) (bank w0) = Some (bank w') ∧
      num_of_rsvps (lookup_event event_id (storage w')) =
        num_of_rsvps (lookup_event event_id (storage w0)) + 1)).
Proof.
  intros Hfail.
  assert (Hclean : ∃ reason, rsvp transfer event_id ctx w = Reverted reason w).
  { rewrite rsvp_unfold. cbv zeta.
    destruct (msg_sender ctx); [|eauto].
    repeat (destruct (negb _); [eauto|]).
    rewrite Hfail. eauto. }
  repeat split.
  - exact Hclean.
  - destruct Hclean as [reason Hclean]. exists reason.
    apply (call_reverted _ _ _ _ Hclean).
  - intros Hsender Hid Hasset Hamount.
    destruct (msg_sender ctx) as [who|] eqn:Hwho; [|contradiction].
    rewrite (rsvp_checks_passed event_id ctx who _ w Hwho eq_refl)
      by assumption.
    rewrite Hfail. reflexivity.
  - clear Hfail Hclean. intros ctx' w0 w' ->. unfold call.
    rewrite rsvp_unfold. cbv zeta.
    destruct (msg_sender ctx'); [|left; reflexivity].
    repeat (destruct (negb _); [left; reflexivity|]).
    destruct (transfer _ _ _ _) as [b'|]; [|left; reflexivity].
    destruct (_ <=? _); [|left; reflexivity].
    right. world_simpl. split; [reflexivity|].
    unfold lookup_event at 1. world_simpl.
    rewrite lookup_insert_eq. reflexivity.
Qed.

(** *** What a registration leaves alone *)

Lemma replay_cons rc history w :
  fst (replay transfer (rc :: history) w) =
    fst (replay transfer history (fst (step transfer rc w))).
Proof.
  cbn [replay]. destruct (step transfer rc w) as [w1 r]. cbn [fst].
  destruct (replay transfer history w1) as [w2 rs]. reflexivity.
Qed.

Lemma replay_results_cons rc history w :
  snd (replay transfer (rc :: history) w) =
    (fst rc, snd (step transfer rc w))
      :: snd (replay transfer history (fst (step transfer rc w))).
Proof.
  cbn [replay]. destruct (step transfer rc w) as [w1 r]. cbn [fst snd].
  destruct (replay transfer history w1) as [w2 rs]. reflexivity.
Qed.

(** One call keeps every record stored under an issued identifier, up
    to its count, which can only grow. *)
Lemma step_keeps_issued rc w k e :
  k < counter w →
  records w !! k = Some e →
  ∃ e', records (fst (step transfer rc w)) !! k = Some e' ∧
        same_but_count e e' ∧ num_of_rsvps e ≤ num_of_rsvps e'.
Proof.
  intros Hk He.
  assert (Hsame : same_but_count e e) by (repeat split).
  destruct rc as [[capacity price event_name|event_id|event_id] ctx];
    unfold step, dispatch, call; cbn [fst snd].
  - rewrite create_event_unfold. cbv zeta.
    destruct (msg_sender ctx); [|exists e; cbn; auto with zarith].
    destruct (_ <=? _); [|exists e; cbn; auto with zarith].
    exists e. world_simpl. rewrite lookup_insert_ne by lia.
    auto with zarith.
  - rewrite rsvp_unfold. cbv zeta.
    destruct (msg_sender ctx); [|exists e; cbn; auto with zarith].
    repeat (destruct (negb _); [exists e; cbn; auto with zarith|]).
    destruct (transfer _ _ _ _); [|exists e; cbn; auto with zarith].
    destruct (_ <=? _); [|exists e; cbn; auto with zarith].
    world_simpl. destruct (decide (event_id = k)) as [->|Hne].
    + rewrite lookup_insert_eq. eexists. split; [reflexivity|].
      unfold lookup_event. rewrite He. cbn. split; [repeat split|lia].
    + rewrite lookup_insert_ne by assumption. exists e. auto with zarith.
  - exists e. cbn. auto with zarith.
Qed.

Lemma replay_keeps_issued history w k e :
  k < counter w →
  records w !! k = Some e →
  ∃ e', records (fst (replay transfer history w)) !! k = Some e' ∧
        same_but_count e e' ∧ num_of_rsvps e ≤ num_of_rsvps e'.
Proof.
  revert w e. induction history as [|rc history IH]; intros w e Hk He.
  - exists e. cbn. repeat split; auto with zarith.
  - rewrite replay_cons.
    destruct (step_keeps_issued rc w k e Hk He) as (e1 & He1 & Hsame1 & Hle1).
    destruct (IH (fst (step transfer rc w)) e1) as (e2 & He2 & Hsame2 & Hle2).
    + pose proof (step_counter_mono transfer rc w). lia.
    + exact He1.
    + exists e2. split; [exact He2|]. split; [|lia].
      destruct Hsame1 as (?&?&?&?&?), Hsame2 as (?&?&?&?&?).
      repeat split; congruence.
Qed.

(** C7: a registration that goes through on a stored event stores and
    returns a record that differs from the old one in its count alone
    (identifier, owner, name, deposit and capacity are the old ones),
    leaves the record under every other key and the counter untouched;
    and whatever calls follow, the record of an issued identifier keeps
    its identifier, owner, name and deposit. *)
Theorem rsvp_changes_only_the_count event_id ctx e e' w w' :
  records w !! event_id = Some e →
  rsvp transfer event_id ctx w = Done e' w' →
  records w' !! event_id = Some e' ∧
  unique_id e' = unique_id e ∧
  owner e' = owner e ∧
  name e' = name e ∧
  deposit e' = deposit e ∧
  max_capacity e' = max_capacity e ∧
  num_of_rsvps e' = num_of_rsvps e + 1 ∧
  (∀ k, k ≠ event_id → records w' !! k = records w !! k) ∧
  counter w' = counter w ∧
  (∀ history k e0,
     k < counter w →
     records w !! k = Some e0 →
     ∃ e1, records (fst (replay transfer history w)) !! k = Some e1 ∧
           unique_id e1 = unique_id e0 ∧ owner e1 = owner e0 ∧
           name e1 = name e0 ∧ deposit e1 = deposit e0).
Proof.
  intros He Hdone.
  assert (Hlater : ∀ history k e0,
     k < counter w → records w !! k = Some e0 →
     ∃ e1, records (fst (replay transfer history w)) !! k = Some e1 ∧
           unique_id e1 = unique_id e0 ∧ owner e1 = owner e0 ∧
           name e1 = name e0 ∧ deposit e1 = deposit e0).
  { intros history k e0 Hk He0.
    destruct (replay_keeps_issued history w k e0 Hk He0)
      as (e1 & He1 & (?&?&?&?&?) & _).
    exists e1. auto. }
  rewrite rsvp_unfold in Hdone. cbv zeta in Hdone.
  assert (Hget : lookup_event event_id (storage w) = e)
    by (unfold lookup_event; rewrite He; reflexivity).
  rewrite Hget in Hdone.
  destruct (msg_sender ctx); [|discriminate].
  repeat (destruct (negb _); [discriminate|]).
  destruct (transfer _ _ _ _); [|discriminate].
  destruct (_ <=? _); [|discriminate].
  injection Hdone as <- <-. world_simpl.
  rewrite lookup_insert_eq. cbn [with_num_of_rsvps unique_id owner name
    deposit max_capacity num_of_rsvps].
  repeat split; try reflexivity; try exact Hlater.
  intros k Hk. apply lookup_insert_ne. congruence.
Qed.

(** *** [get_rsvp] *)

(** C8: [get_rsvp] never stops, returns what is stored under the key
    (the zeroed record when nothing is) and leaves the world as it is;
    so a second read of the same key, by whomever, returns the same
    record, also after any number of reads of other keys. *)
Theorem get_rsvp_is_a_pure_read event_id ctx w :
  call (get_rsvp event_id ctx) w =
    (w, Ok (lookup_event event_id (storage w))) ∧
  (∀ ctx',
     call (get_rsvp event_id ctx') (fst (call (get_rsvp event_id ctx) w)) =
     call (get_rsvp event_id ctx) w) ∧
  (∀ reads : list (N * CallContext),
     fst (replay transfer (map (λ r, (GetRsvp (fst r), snd r)) reads) w) = w).
Proof.
  split; [reflexivity|]. split; [reflexivity|].
  intros reads. induction reads as [|r reads IH]; [reflexivity|].
  cbn [map]. rewrite replay_cons. exact IH.
Qed.

(** Reading a key under which nothing is stored yields the zeroed
    record. *)
Lemma get_rsvp_absent_key event_id ctx w :
  records w !! event_id = None →
  call (get_rsvp event_id ctx) w = (w, Ok zero_event).
Proof.
  intros Habsent. unfold call. rewrite get_rsvp_unfold.
  unfold lookup_event. rewrite Habsent. reflexivity.
Qed.

(** *** Identifiers *)

(** A [create_event] call either issues the counter's value and
    advances the counter, or changes nothing. *)
Lemma create_event_outcome capacity price event_name ctx w :
  (∃ e, snd (call (create_event capacity price event_name ctx) w) = Ok e ∧
        unique_id e = counter w ∧
        counter (fst (call (create_event capacity price event_name ctx) w)) =
          counter w + 1) ∨
  (∃ reason,
     call (create_event capacity price event_name ctx) w = (w, Err reason)).
Proof.
  unfold call. rewrite create_event_unfold. cbv zeta.
  destruct (msg_sender ctx); [|right; eauto].
  destruct (_ <=? _); [|right; eauto].
  left. eexists. cbn. eauto.
Qed.

(** The other two entry points leave the counter alone. *)
Lemma rsvp_counter event_id ctx w :
  counter (fst (call (rsvp transfer event_id ctx) w)) = counter w.
Proof.
  unfold call. rewrite rsvp_unfold. cbv zeta.
  destruct (msg_sender ctx); [|reflexivity].
  repeat (destruct (negb _); [reflexivity|]).
  destruct (transfer _ _ _ _); [|reflexivity].
  destruct (_ <=? _); reflexivity.
Qed.

Lemma consecutive_cons (c : N) (n : nat) :
  c :: map (λ i, c + 1 + N.of_nat i) (seq 0 n) =
  map (λ i, c + N.of_nat i) (seq 0 (S n)).
Proof.
  cbn [seq map]. f_equal; [lia|].
  rewrite <- seq_shift, map_map. apply map_ext. intros i. lia.
Qed.

(** Over any history, from any world: the identifiers issued are the
    consecutive values from the counter on, in call order, and the
    counter has advanced by their number. *)
Lemma replay_issues_consecutive_ids history w :
  issued_ids (snd (replay transfer history w)) =
    map (λ i, counter w + N.of_nat i)
      (seq 0 (length (issued_ids (snd (replay transfer history w))))) ∧
  counter (fst (replay transfer history w)) =
    counter w + N.of_nat (length (issued_ids (snd (replay transfer history w)))).
Proof.
  revert w. induction history as [|[r ctx] history IH]; intros w.
  - cbn. split; [reflexivity|lia].
  - rewrite replay_cons, replay_results_cons. unfold step. cbn [fst snd].
    specialize (IH (fst (call (dispatch transfer r ctx) w))).
    destruct IH as [IHids IHcounter]. revert IHids IHcounter.
    generalize (replay transfer history (fst (call (dispatch transfer r ctx) w))).
    intros [w2 rs]. cbn [fst snd].
    destruct r as [capacity price event_name|event_id|event_id]; cbn [dispatch].
    + destruct (create_event_outcome capacity price event_name ctx w)
        as [(e & Hok & Hid & Hcounter)|(reason & Hfail)].
      * rewrite Hok, Hcounter. cbn [issued_ids length]. intros IHids IHcounter.
        split; [|lia].
        rewrite <- consecutive_cons, Hid. f_equal. exact IHids.
      * rewrite Hfail. cbn [fst snd issued_ids]. auto.
    + rewrite rsvp_counter.
      destruct (snd (call (rsvp transfer event_id ctx) w));
        cbn [issued_ids]; auto.
    + unfold call. rewrite get_rsvp_unfold. cbn [fst snd issued_ids]. auto.
Qed.

(** From deployment on, the identifiers issued are 0, 1, 2, ... in call
    order, without repeats, and the counter is the number of successful
    [create_event] calls. *)
Lemma issued_ids_from_deployment history (b : Bank) :
  let ids := issued_ids (snd (replay transfer history (deploy b))) in
  ids = map N.of_nat (seq 0 (length ids)) ∧
  NoDup ids ∧
  counter (fst (replay transfer history (deploy b))) = N.of_nat (length ids).
Proof.
  cbv zeta.
  destruct (replay_issues_consecutive_ids history (deploy b)) as [Hids Hcounter].
  cbn [deploy storage initial_storage event_id_counter] in Hids, Hcounter.
  assert (Hmap : ∀ n, map (λ i, 0 + N.of_nat i) (seq 0 n) = map N.of_nat (seq 0 n))
    by (intros n; apply map_ext; intros i; lia).
  rewrite Hmap in Hids. split; [exact Hids|]. split; [|lia].
  rewrite Hids. apply NoDup_fmap_2; [|apply NoDup_seq].
  intros i j. lia.
Qed.

(** *** The identifier check of [rsvp] *)

(** Before any event exists the check refuses every identifier. *)
Lemma rsvp_fresh_registry event_id ctx who w :
  msg_sender ctx = Some who →
  counter w = 0 →
  call (rsvp transfer event_id ctx) w = (w, Err (RequireFailed InvalidEventID)).
Proof.
  intros Hsender Hfresh. unfold call.
  rewrite rsvp_unfold, Hsender, Hfresh. cbv zeta.
  destruct (N.ltb_spec (unique_id (lookup_event event_id (storage w))) 0);
    [lia|reflexivity].
Qed.

(** Once an event exists, the check compares the counter with the
    [unique_id] of the record read, which is 0 for a key that was never
    written: such a key passes, whatever its value, and the registration
    is paid to the zero address and stored under that key. *)
Lemma rsvp_absent_key event_id ctx who b w :
  msg_sender ctx = Some who →
  records w !! event_id = None →
  0 < counter w →
  msg_asset_id ctx = BASE_ASSET_ID →
  transfer (msg_amount ctx) BASE_ASSET_ID (Address 0) (bank w) = Some b →
  call (rsvp transfer event_id ctx) w =
    (world_with event_id (with_num_of_rsvps 1 zero_event) (counter w) b w,
     Ok (with_num_of_rsvps 1 zero_event)).
Proof.
  intros Hsender Habsent Hsome Hasset Hpaid.
  assert (Hget : lookup_event event_id (storage w) = zero_event)
    by (unfold lookup_event; rewrite Habsent; reflexivity).
  apply call_done.
  rewrite (rsvp_checks_passed event_id ctx who zero_event w);
    try assumption; [|cbn; lia].
  cbn [zero_event owner num_of_rsvps]. rewrite Hasset, Hpaid. reflexivity.
Qed.

(** *** The last [u64] can be reached *)

(** Every counter value up to the last [u64] occurs in some reachable
    registry. *)
Lemma counter_value_reachable (b : Bank) (n : N) :
  n ≤ U64_MAX → ∃ w, reachable transfer w ∧ counter w = n.
Proof.
  induction n as [|n IH] using N.peano_ind; intros Hn.
  - exists (deploy b). split; [constructor|reflexivity].
  - destruct IH as (w & Hreach & Hcounter); [lia|].
    pose (ctx := {| msg_sender := Some (Address 0);
                    msg_asset_id := BASE_ASSET_ID; msg_amount := 0 |}).
    exists (fst (step transfer (CreateEvent 0 0 zero_name, ctx) w)).
    split; [constructor; exact Hreach|].
    unfold step, call. cbn [fst snd dispatch].
    rewrite create_event_unfold. cbv zeta. cbn [ctx msg_sender].
    destruct (N.leb_spec (counter w + 1) U64_MAX); [|lia].
    cbn. lia.
Qed.

End Properties.

(** ** Scenarios on the concrete ledger *)

Section Scenarios.

Import Ledger.

Local Abbreviation counter w := (event_id_counter (storage w)).
Local Abbreviation records w := (events (storage w)).

(** Scenario 1 of the specification. *)
Lemma scenario_create_meetup :
  step transfer (meetup, paying alice BASE_ASSET_ID 0) w0 =
    (w_count 0, Ok (meetup_event 0)).
Proof. vm_compute. reflexivity. Qed.

Lemma w1_is_w_count_0 : w1 = w_count 0.
Proof. vm_compute. reflexivity. Qed.

Lemma w1_reachable : reachable transfer w1.
Proof. exact (reachable_step _ transfer _ _ (reachable_deploy _ transfer [])). Qed.

(** Scenario 4 of the specification holds on the fresh registry only. *)
Lemma scenario_unknown_id_fresh_registry :
  step transfer (Rsvp 99, paying bob BASE_ASSET_ID 10) w0 =
    (w0, Err (RequireFailed InvalidEventID)).
Proof. vm_compute. reflexivity. Qed.

(** C1, at the failing input: in the registry holding the single event
    0 (counter 1), identifier 99 was never issued and nothing is stored
    under it, yet [rsvp 99] with 10 coins of the base asset is not
    refused with [InvalidEventID]: it pays the 10 coins to the zero
    address, stores a record under key 99 and returns it. *)
Theorem rsvp_accepts_unissued_id :
  counter w1 = 1 ∧
  records w1 !! 99 = None ∧
  step transfer (Rsvp 99, paying bob BASE_ASSET_ID 10) w1 =
    ({| storage := {| events := <[99 := phantom]> (records w1);
                      event_id_counter := 1 |};
        bank := [ {| payee := Address 0; asset := BASE_ASSET_ID; coins := 10 |} ] |},
     Ok phantom).
Proof. repeat split; vm_compute; reflexivity. Qed.

(** C3, at the failing input: after [create_event] and then [rsvp 99]
    on a fresh registry, one identifier (0) has been issued and the
    counter is 1, but the events map has the key 99, which is not below
    the counter. *)
Theorem events_key_not_below_counter :
  let history := [ (meetup, paying alice BASE_ASSET_ID 0);
                   (Rsvp 99, paying bob BASE_ASSET_ID 10) ] in
  let w := fst (replay transfer history w0) in
  issued_ids (snd (replay transfer history w0)) = [0] ∧
  counter w = 1 ∧
  records w !! 99 = Some phantom ∧
  ¬ (99 < counter w).
Proof.
  cbv zeta. repeat split; try (vm_compute; reflexivity).
  vm_compute. discriminate.
Qed.

(** C10, at the failing input: after the same two calls, identifier 99
    is still not issued (the counter is 1), and [get_rsvp 99] returns a
    record that counts one registration, not the zeroed record. *)
Theorem get_rsvp_unissued_id_not_zeroed :
  let history := [ (meetup, paying alice BASE_ASSET_ID 0);
                   (Rsvp 99, paying bob BASE_ASSET_ID 10) ] in
  let w := fst (replay transfer history w0) in
  counter w = 1 ∧
  call (get_rsvp 99 (paying bob BASE_ASSET_ID 0)) w = (w, Ok phantom) ∧
  num_of_rsvps phantom = 1 ∧
  phantom ≠ zero_event.
Proof.
  cbv zeta. repeat split; try (vm_compute; reflexivity).
  discriminate.
Qed.

(** At the last identifier: in the registry whose counter is the last
    [u64], [create_event] by Alice stops on the overflow of the counter;
    nothing is stored, the counter is not advanced and no record is
    returned. *)
Lemma create_event_stops_at_last_id :
  counter w_last_id = 18446744073709551615 ∧
  call (create_event 50 10 meetup_name (paying alice BASE_ASSET_ID 0)) w_last_id =
    (w_last_id, Err ArithmeticOverflow).
Proof. split; vm_compute; reflexivity. Qed.

(** At the last count: on the event 0 (deposit 10) whose count is the
    last [u64], a call paying 10 coins of the base asset passes the
    three checks, and yet no payment is made and the count is not
    raised: the call stops on the overflow of the count. *)
Lemma rsvp_stops_at_last_count :
  records (w_count U64_MAX) !! 0 = Some (meetup_event 18446744073709551615) ∧
  0 < counter (w_count U64_MAX) ∧
  deposit (meetup_event U64_MAX) ≤ 10 ∧
  call (rsvp transfer 0 (paying bob BASE_ASSET_ID 10)) (w_count U64_MAX) =
    (w_count U64_MAX, Err ArithmeticOverflow).
Proof.
  repeat split; try (vm_compute; reflexivity).
  vm_compute. discriminate.
Qed.

(** At the last count again: the same call, paying 25 coins, on the same
    event does not succeed. *)
Lemma rsvp_refused_at_last_count :
  records (w_count U64_MAX) !! 0 = Some (meetup_event U64_MAX) ∧
  unique_id (meetup_event U64_MAX) < counter (w_count U64_MAX) ∧
  deposit (meetup_event U64_MAX) ≤ 25 ∧
  ¬ ∃ e' w',
      call (rsvp transfer 0 (paying bob BASE_ASSET_ID 25)) (w_count U64_MAX) =
        (w', Ok e').
Proof.
  repeat split; try (vm_compute; reflexivity).
  - vm_compute. discriminate.
  - intros (e' & w' & H). vm_compute in H. discriminate.
Qed.

(** Both boundary registries can be reached from deployment: the
    counter by creating events, the count by registering again and
    again for event 0. *)
Lemma last_id_reachable :
  ∃ w, reachable transfer w ∧ counter w = U64_MAX ∧
       call (create_event 50 10 meetup_name (paying alice BASE_ASSET_ID 0)) w =
         (w, Err ArithmeticOverflow).
Proof.
  destruct (counter_value_reachable transfer [] U64_MAX) as (w & Hreach & Hlast);
    [lia|].
  exists w. repeat split; [exact Hreach|exact Hlast|].
  apply (create_event_overflow _ _ _ _ alice); [reflexivity|exact Hlast].
Qed.

Lemma count_value_reachable (n : N) :
  n ≤ U64_MAX →
  ∃ w, reachable transfer w ∧ storage w = storage (w_count n).
Proof.
  induction n as [|n IH] using N.peano_ind; intros Hn.
  - exists w1. split; [exact w1_reachable|].
    rewrite w1_is_w_count_0. reflexivity.
  - destruct IH as (w & Hreach & Hstorage); [lia|].
    exists (fst (step transfer (Rsvp 0, paying bob BASE_ASSET_ID 10) w)).
    split; [constructor; exact Hreach|].
    unfold step, call. cbn [fst snd dispatch].
    rewrite (rsvp_checks_passed transfer 0 _ bob (meetup_event n) w).
    + cbn [paying msg_amount msg_asset_id transfer N.eqb].
      destruct (N.leb_spec (num_of_rsvps (meetup_event n) + 1) U64_MAX) as [_|Hgt];
        [|cbn in Hgt; lia].
      unfold world_with. cbn [fst storage]. rewrite Hstorage.
      cbn [w_count storage events event_id_counter].
      rewrite insert_singleton_eq.
      cbn [with_num_of_rsvps meetup_event unique_id max_capacity deposit
           owner name num_of_rsvps].
      replace (N.succ n) with (n + 1) by lia. reflexivity.
    + reflexivity.
    + unfold lookup_event. rewrite Hstorage.
      cbn [w_count storage events]. rewrite lookup_singleton_eq. reflexivity.
    + rewrite Hstorage. cbn. lia.
    + reflexivity.
    + cbn. lia.
Qed.

Lemma last_count_reachable :
  ∃ w, reachable transfer w ∧
       records w !! 0 = Some (meetup_event U64_MAX) ∧
       call (rsvp transfer 0 (paying bob BASE_ASSET_ID 10)) w =
         (w, Err ArithmeticOverflow).
Proof.
  destruct (count_value_reachable U64_MAX) as (w & Hreach & Hstorage); [lia|].
  assert (Hrecord : records w !! 0 = Some (meetup_event U64_MAX))
    by (rewrite Hstorage; apply lookup_singleton_eq).
  exists w. repeat split; [exact Hreach|exact Hrecord|].
  apply (rsvp_overflow transfer 0 _ bob (meetup_event U64_MAX)
           ({| payee := alice; asset := BASE_ASSET_ID; coins := 10 |} :: bank w)).
  - reflexivity.
  - unfold lookup_event. rewrite Hrecord. reflexivity.
  - rewrite Hstorage. cbn. lia.
  - reflexivity.
  - cbn. lia.
  - reflexivity.
  - reflexivity.
Qed.

(** *** The theorems above, at work on the scenarios *)

Lemma create_event_issues_next_id_witness :
  msg_sender (paying alice BASE_ASSET_ID 0) = Some alice ∧
  counter w0 < U64_MAX ∧
  ∃ w',
    call (create_event 50 10 meetup_name (paying alice BASE_ASSET_ID 0)) w0 =
      (w', Ok (meetup_event 0)) ∧
    records w' = <[0 := meetup_event 0]> (records w0) ∧
    counter w' = 0 + 1 ∧
    bank w' = bank w0.
Proof.
  split; [reflexivity|]. split; [reflexivity|].
  exact (create_event_issues_next_id 50 10 meetup_name
           (paying alice BASE_ASSET_ID 0) alice w0 eq_refl eq_refl).
Defined.

(** Scenario 3 of the specification. *)
Lemma rsvp_payment_gating_witness :
  msg_sender (paying bob BASE_ASSET_ID 5) = Some bob ∧
  reachable transfer w1 ∧
  records w1 !! 0 = Some (meetup_event 0) ∧
  call (rsvp transfer 0 (paying bob BASE_ASSET_ID 5)) w1 =
    (w1, Err (RequireFailed NotEnoughTokens)).
Proof.
  assert (Hstored : records w1 !! 0 = Some (meetup_event 0))
    by (vm_compute; reflexivity).
  split; [reflexivity|]. split; [exact w1_reachable|]. split; [exact Hstored|].
  destruct (rsvp_payment_gating transfer 0 (paying bob BASE_ASSET_ID 5) bob
              (meetup_event 0) w1 eq_refl w1_reachable Hstored)
    as (_ & Hamount & _).
  apply Hamount; reflexivity.
Defined.

(** Scenario 2 of the specification, with more than the deposit
    attached: all 25 coins go to Alice. *)
Lemma rsvp_registers_witness :
  msg_sender (paying bob BASE_ASSET_ID 25) = Some bob ∧
  reachable transfer w1 ∧
  records w1 !! 0 = Some (meetup_event 0) ∧
  deposit (meetup_event 0) ≤ 25 ∧
  num_of_rsvps (meetup_event 0) < U64_MAX ∧
  ∃ w',
    call (rsvp transfer 0 (paying bob BASE_ASSET_ID 25)) w1 =
      (w', Ok (meetup_event 1)) ∧
    bank w' = [ {| payee := alice; asset := BASE_ASSET_ID; coins := 25 |} ] ∧
    records w' = <[0 := meetup_event 1]> (records w1) ∧
    counter w' = counter w1.
Proof.
  assert (Hstored : records w1 !! 0 = Some (meetup_event 0))
    by (vm_compute; reflexivity).
  assert (Hamount : deposit (meetup_event 0) ≤ 25) by (cbn; lia).
  assert (Hroom : num_of_rsvps (meetup_event 0) < U64_MAX) by reflexivity.
  split; [reflexivity|]. split; [exact w1_reachable|]. split; [exact Hstored|].
  split; [exact Hamount|]. split; [exact Hroom|].
  exact (rsvp_registers transfer 0 (paying bob BASE_ASSET_ID 25) bob
           (meetup_event 0) _ w1 eq_refl w1_reachable Hstored eq_refl
           Hamount eq_refl Hroom).
Defined.

(** A full event takes one more registration. *)
Lemma rsvp_ignores_max_capacity_witness :
  reachable transfer w_free ∧
  records w_free !! 0 = Some free_event ∧
  max_capacity free_event ≤ num_of_rsvps free_event ∧
  ∃ e' w',
    call (rsvp transfer 0 (paying bob BASE_ASSET_ID 3)) w_free = (w', Ok e') ∧
    max_capacity e' < num_of_rsvps e'.
Proof.
  assert (Hreach : reachable transfer w_free)
    by exact (reachable_step _ transfer _ _ (reachable_deploy _ transfer [])).
  assert (Hstored : records w_free !! 0 = Some free_event)
    by (vm_compute; reflexivity).
  assert (Hfull : max_capacity free_event ≤ num_of_rsvps free_event)
    by (cbn; lia).
  split; [exact Hreach|]. split; [exact Hstored|]. split; [exact Hfull|].
  destruct (rsvp_ignores_max_capacity transfer 0 (paying bob BASE_ASSET_ID 3)
              bob free_event _ w_free eq_refl Hreach Hstored eq_refl
              ltac:(cbn; lia) eq_refl eq_refl)
    as [(e' & w' & Hcall & _ & _ & _ & Hover) _].
  exists e', w'. split; [exact Hcall|exact (Hover Hfull)].
Defined.

(** A transfer of zero coins is refused: the registration stops there. *)
Lemma rsvp_transfer_failure_is_clean_witness :
  transfer 0 BASE_ASSET_ID alice (bank w_free) = None ∧
  rsvp transfer 0 (paying bob BASE_ASSET_ID 0) w_free =
    Reverted TransferFailed w_free.
Proof.
  split; [reflexivity|].
  destruct (rsvp_transfer_failure_is_clean transfer 0
              (paying bob BASE_ASSET_ID 0) w_free eq_refl)
    as (_ & _ & Hreason & _).
  apply Hreason.
  - discriminate.
  - reflexivity.
  - reflexivity.
  - vm_compute. discriminate.
Defined.

Lemma rsvp_changes_only_the_count_witness :
  records w1 !! 0 = Some (meetup_event 0) ∧
  rsvp transfer 0 (paying bob BASE_ASSET_ID 10) w1 =
    Done (meetup_event 1)
      (world_with 0 (meetup_event 1) 1
         [ {| payee := alice; asset := BASE_ASSET_ID; coins := 10 |} ] w1) ∧
  owner (meetup_event 1) = owner (meetup_event 0) ∧
  deposit (meetup_event 1) = deposit (meetup_event 0) ∧
  records (world_with 0 (meetup_event 1) 1
             [ {| payee := alice; asset := BASE_ASSET_ID; coins := 10 |} ] w1)
    !! 99 = records w1 !! 99.
Proof.
  assert (Hstored : records w1 !! 0 = Some (meetup_event 0))
    by (vm_compute; reflexivity).
  assert (Hdone : rsvp transfer 0 (paying bob BASE_ASSET_ID 10) w1 =
                  Done (meetup_event 1)
                    (world_with 0 (meetup_event 1) 1
                       [ {| payee := alice; asset := BASE_ASSET_ID; coins := 10 |} ]
                       w1))
    by (vm_compute; reflexivity).
  split; [exact Hstored|]. split; [exact Hdone|].
  destruct (rsvp_changes_only_the_count transfer 0 _ _ _ _ _ Hstored Hdone)
    as (_ & _ & Howner & _ & Hdeposit & _ & _ & Hothers & _).
  split; [exact Howner|]. split; [exact Hdeposit|].
  apply Hothers. discriminate.
Defined.

End Scenarios.

(** ** Further properties of the registry *)

Section Registry.

Context {Bank : Type} (transfer : N → b256 → Identity → Bank → option Bank).

Implicit Types (w : World Bank) (ctx : CallContext) (e : Event).

Local Abbreviation counter w := (event_id_counter (storage w)).
Local Abbreviation records w := (events (storage w)).

Lemma registrations_cons key r res results :
  registrations key ((r, res) :: results) =
    (registrations key [(r, res)] + registrations key results)%nat.
Proof.
  cbn [registrations]. destruct r as [? ? ?|event_id|?]; try reflexivity.
  destruct res; [|reflexivity]. lia.
Qed.

(** One call raises the count of an issued identifier by one when it is
    a committed registration for it, and leaves it alone otherwise. *)
Lemma step_counts rc w k e :
  k < counter w →
  records w !! k = Some e →
  ∃ e', records (fst (step transfer rc w)) !! k = Some e' ∧
        same_but_count e e' ∧
        num_of_rsvps e' =
          num_of_rsvps e +
          N.of_nat (registrations k [(fst rc, snd (step transfer rc w))]).
Proof.
  intros Hk He.
  assert (Hsame : same_but_count e e) by (repeat split).
  assert (Hkeep : ∃ e', records w !! k = Some e' ∧ same_but_count e e' ∧
                        num_of_rsvps e' = num_of_rsvps e + N.of_nat 0)
    by (exists e; repeat split; [exact He|lia]).
  destruct rc as [[capacity price event_name|event_id|event_id] ctx];
    unfold step, dispatch, call; cbn [fst snd].
  - rewrite create_event_unfold. cbv zeta.
    destruct (msg_sender ctx); [|exact Hkeep].
    destruct (_ <=? _); [|exact Hkeep].
    world_simpl. rewrite lookup_insert_ne by lia. exact Hkeep.
  - rewrite rsvp_unfold. cbv zeta.
    destruct (msg_sender ctx); [|exact Hkeep].
    repeat (destruct (negb _); [exact Hkeep|]).
    destruct (transfer _ _ _ _); [|exact Hkeep].
    destruct (_ <=? _); [|exact Hkeep].
    world_simpl. cbn [registrations].
    destruct (N.eqb_spec event_id k) as [->|Hne].
    + rewrite lookup_insert_eq. eexists. split; [reflexivity|].
      unfold lookup_event. rewrite He. cbn. split; [repeat split|lia].
    + rewrite lookup_insert_ne by assumption. exact Hkeep.
  - exact Hkeep.
Qed.

Lemma replay_counts history w k e :
  k < counter w →
  records w !! k = Some e →
  ∃ e', records (fst (replay transfer history w)) !! k = Some e' ∧
        same_but_count e e' ∧
        num_of_rsvps e' =
          num_of_rsvps e +
          N.of_nat (registrations k (snd (replay transfer history w))).
Proof.
  revert w e. induction history as [|rc history IH]; intros w e Hk He.
  - exists e. cbn. repeat split; [exact He|lia].
  - rewrite replay_cons, replay_results_cons, registrations_cons.
    destruct (step_counts rc w k e Hk He) as (e1 & He1 & Hsame1 & Hnum1).
    destruct (IH (fst (step transfer rc w)) e1) as (e2 & He2 & Hsame2 & Hnum2).
    + pose proof (step_counter_mono transfer rc w). lia.
    + exact He1.
    + exists e2. split; [exact He2|]. split.
      * destruct Hsame1 as (?&?&?&?&?), Hsame2 as (?&?&?&?&?).
        repeat split; congruence.
      * lia.
Qed.

(** X1: over any history of calls, the record of an issued identifier
    stays stored, keeps everything but its count, and its count grows by
    exactly the number of registrations for that identifier that the
    history committed: it never goes down, is never reset, and no other
    call moves it. *)
Theorem registration_count_accounts history w k e :
  k < counter w →
  records w !! k = Some e →
  ∃ e', records (fst (replay transfer history w)) !! k = Some e' ∧
        unique_id e' = unique_id e ∧ owner e' = owner e ∧
        name e' = name e ∧ deposit e' = deposit e ∧
        max_capacity e' = max_capacity e ∧
        num_of_rsvps e' =
          num_of_rsvps e +
          N.of_nat (registrations k (snd (replay transfer history w))).
Proof.
  intros Hk He.
  destruct (replay_counts history w k e Hk He) as (e' & He' & Hsame & Hnum).
  destruct Hsame as (?&?&?&?&?). exists e'. auto 10.
Qed.

(** X2: what [create_event] returns can be read back at any later time.
    If the call commits and returns [e], then after any history of
    further calls [get_rsvp] of the returned identifier yields a record
    with the identifier, owner, name, deposit and capacity of [e], whose
    count is the number of registrations committed for it since. *)
Theorem created_event_reads_back capacity price event_name ctx w w1 e :
  call (create_event capacity price event_name ctx) w = (w1, Ok e) →
  ∀ history ctx',
    ∃ e', call (get_rsvp (unique_id e) ctx') (fst (replay transfer history w1)) =
            (fst (replay transfer history w1), Ok e') ∧
          unique_id e' = unique_id e ∧ owner e' = owner e ∧
          name e' = name e ∧ deposit e' = deposit e ∧
          max_capacity e' = max_capacity e ∧
          num_of_rsvps e' =
            N.of_nat (registrations (unique_id e)
                        (snd (replay transfer history w1))).
Proof.
  unfold call at 1. rewrite create_event_unfold. cbv zeta.
  destruct (msg_sender ctx) as [who|]; [|discriminate].
  destruct (_ <=? _); [|discriminate].
  intros [= <- <-] history ctx'.
  destruct (replay_counts history
              (world_with (counter w)
                 (fresh_event (counter w) capacity price who event_name)
                 (counter w + 1) (bank w) w)
              (counter w)
              (fresh_event (counter w) capacity price who event_name))
    as (e' & He' & Hsame & Hnum).
  - world_simpl. lia.
  - world_simpl. apply lookup_insert_eq.
  - cbn [fresh_event unique_id num_of_rsvps] in *.
    destruct Hsame as (?&?&?&?&?). exists e'. split.
    + unfold call. rewrite get_rsvp_unfold. unfold lookup_event.
      rewrite He'. reflexivity.
    + rewrite Hnum. auto 10.
Qed.

(** X3: in a reachable registry every identifier below the counter reads
    back, for any caller, as a stored record that carries that very
    identifier. *)
Theorem issued_id_reads_back w k ctx :
  reachable transfer w →
  k < counter w →
  ∃ e, call (get_rsvp k ctx) w = (w, Ok e) ∧
       records w !! k = Some e ∧
       unique_id e = k.
Proof.
  intros Hreach Hk.
  destruct (reachable_consistent transfer w Hreach) as [Hdom Hid].
  destruct (Hdom k Hk) as [e He]. exists e.
  split; [|split; [exact He|apply (Hid k e He), Hk]].
  unfold call. rewrite get_rsvp_unfold. unfold lookup_event.
  rewrite He. reflexivity.
Qed.

(** X4: identifiers are never reused.  From any registry, the
    identifiers that a history of calls issues are the consecutive values
    from the counter on, in call order: they are pairwise distinct, none
    is below the counter the history started from, and the counter ends
    past all of them, advanced by their number. *)
Theorem identifiers_are_never_reused history w :
  let ids := issued_ids (snd (replay transfer history w)) in
  ids = map (λ i, counter w + N.of_nat i) (seq 0 (length ids)) ∧
  NoDup ids ∧
  (∀ id, id ∈ ids →
     counter w ≤ id < counter (fst (replay transfer history w))) ∧
  counter (fst (replay transfer history w)) =
    counter w + N.of_nat (length ids).
Proof.
  cbv zeta.
  destruct (replay_issues_consecutive_ids transfer history w) as [Hids Hcounter].
  split; [exact Hids|]. split; [|split; [|exact Hcounter]].
  - rewrite Hids. apply NoDup_fmap_2; [|apply NoDup_seq].
    intros i j. lia.
  - intros id. rewrite Hids at 1. rewrite Hcounter.
    intros Hin. apply list_elem_of_In, in_map_iff in Hin.
    destruct Hin as (i & <- & Hi). apply in_seq in Hi. lia.
Qed.

(** One call removes no key. *)
Lemma step_keeps_keys rc w k :
  is_Some (records w !! k) → is_Some (records (fst (step transfer rc w)) !! k).
Proof.
  intros Hk.
  destruct rc as [[capacity price event_name|event_id|event_id] ctx];
    unfold step, dispatch, call; cbn [fst snd].
  - rewrite create_event_unfold. cbv zeta.
    destruct (msg_sender ctx); [|exact Hk].
    destruct (_ <=? _); [|exact Hk].
    world_simpl. rewrite lookup_insert_is_Some.
    destruct (decide (counter w = k)); auto.
  - rewrite rsvp_unfold. cbv zeta.
    destruct (msg_sender ctx); [|exact Hk].
    repeat (destruct (negb _); [exact Hk|]).
    destruct (transfer _ _ _ _); [|exact Hk].
    destruct (_ <=? _); [|exact Hk].
    world_simpl. rewrite lookup_insert_is_Some.
    destruct (decide (event_id = k)); auto.
  - exact Hk.
Qed.

(** X5: nothing is ever deleted or handed back.  Over any history of
    calls, from any registry, a key under which a record is stored stays
    a key of the events map, and the counter does not decrease. *)
Theorem registry_only_grows history w :
  (∀ k, is_Some (records w !! k) →
        is_Some (records (fst (replay transfer history w)) !! k)) ∧
  counter w ≤ counter (fst (replay transfer history w)).
Proof.
  revert w. induction history as [|rc history IH]; intros w.
  - cbn. split; [auto|lia].
  - rewrite replay_cons.
    destruct (IH (fst (step transfer rc w))) as [IHkeys IHcounter]. split.
    + intros k Hk. apply IHkeys, step_keeps_keys, Hk.
    + pose proof (step_counter_mono transfer rc w). lia.
Qed.

(** X6: the contract pays out in one place only.  A call leaves the bank
    as it is unless it is a registration that commits, and then the bank
    is the result of one transfer: of the whole attached amount, in the
    base asset, to the owner field of the record read under the event
    id. *)
Theorem only_a_committed_rsvp_pays r ctx w :
  bank (fst (step transfer (r, ctx) w)) = bank w ∨
  ∃ event_id e',
    r = Rsvp event_id ∧
    snd (step transfer (r, ctx) w) = Ok e' ∧
    msg_asset_id ctx = BASE_ASSET_ID ∧
    transfer (msg_amount ctx) BASE_ASSET_ID
      (owner (lookup_event event_id (storage w))) (bank w) =
      Some (bank (fst (step transfer (r, ctx) w))).
Proof.
  destruct r as [capacity price event_name|event_id|event_id];
    unfold step, dispatch, call; cbn [fst snd].
  - left. rewrite create_event_unfold. cbv zeta.
    destruct (msg_sender ctx); [|reflexivity].
    destruct (_ <=? _); reflexivity.
  - rewrite rsvp_unfold. cbv zeta.
    destruct (msg_sender ctx); [|left; reflexivity].
    destruct (negb _); [left; reflexivity|].
    destruct (N.eqb_spec (msg_asset_id ctx) BASE_ASSET_ID) as [Hasset|];
      [|left; reflexivity].
    cbn [negb].
    destruct (negb _); [left; reflexivity|].
    rewrite Hasset.
    destruct (transfer _ _ _ _) as [b|] eqn:Hpaid; [|left; reflexivity].
    destruct (_ <=? _); [|left; reflexivity].
    right. eexists _, _. world_simpl.
    split; [reflexivity|]. split; [reflexivity|]. split; [reflexivity|].
    exact Hpaid.
  - left. reflexivity.
Qed.

(** X7: the complete condition for a registration.  [rsvp] commits
    exactly when the caller resolves, the record read under the event id
    has a [unique_id] below the counter, the base asset is attached, the
    amount covers the record's deposit, the transfer of that amount to
    the record's owner succeeds and the count is below the last [u64].
    Nothing else is looked at: not the capacity, not who calls, not
    whether the caller registered before, not whether a record exists
    under the id. *)
Theorem rsvp_commits_iff event_id ctx w :
  let e := lookup_event event_id (storage w) in
  (∃ e' w', call (rsvp transfer event_id ctx) w = (w', Ok e')) ↔
  is_Some (msg_sender ctx) ∧
  unique_id e < counter w ∧
  msg_asset_id ctx = BASE_ASSET_ID ∧
  deposit e ≤ msg_amount ctx ∧
  is_Some (transfer (msg_amount ctx) BASE_ASSET_ID (owner e) (bank w)) ∧
  num_of_rsvps e < U64_MAX.
Proof.
  cbv zeta. unfold call. rewrite rsvp_unfold. cbv zeta.
  destruct (msg_sender ctx) as [who|].
  2:{ split; [intros (? & ? & [=])|intros ([? [=]] & _)]. }
  destruct (N.ltb_spec (unique_id (lookup_event event_id (storage w))) (counter w));
    cbn [negb].
  2:{ split; [intros (? & ? & [=])|intros (_ & ? & _); lia]. }
  destruct (N.eqb_spec (msg_asset_id ctx) BASE_ASSET_ID) as [Hasset|]; cbn [negb].
  2:{ split; [intros (? & ? & [=])|intros (_ & _ & ? & _); contradiction]. }
  destruct (N.leb_spec (deposit (lookup_event event_id (storage w))) (msg_amount ctx));
    cbn [negb].
  2:{ split; [intros (? & ? & [=])|intros (_ & _ & _ & ? & _); lia]. }
  rewrite Hasset.
  destruct (transfer _ _ _ _) as [b|].
  2:{ split; [intros (? & ? & [=])|intros (_ & _ & _ & _ & [? [=]] & _)]. }
  destruct (N.leb_spec (num_of_rsvps (lookup_event event_id (storage w)) + 1) U64_MAX).
  2:{ split; [intros (? & ? & [=])|intros (_ & _ & _ & _ & _ & ?); lia]. }
  split; [intros _|eauto].
  repeat split; eauto; lia.
Qed.

(** X8: the outcomes of [create_event].  The call commits exactly when
    the caller resolves and the counter is below the last [u64]; the only
    reasons it can stop with are the failed [unwrap] and the arithmetic
    overflow; and whether it commits or not, the record under every key
    other than the counter's value is left as it is. *)
Theorem create_event_outcomes capacity price event_name ctx w :
  ((∃ e w', call (create_event capacity price event_name ctx) w = (w', Ok e)) ↔
   is_Some (msg_sender ctx) ∧ counter w < U64_MAX) ∧
  (∀ reason w',
     call (create_event capacity price event_name ctx) w = (w', Err reason) →
     w' = w ∧
     (reason = UnwrapFailed ∧ msg_sender ctx = None ∨
      reason = ArithmeticOverflow ∧ U64_MAX ≤ counter w)) ∧
  (∀ k, k ≠ counter w →
     records (fst (call (create_event capacity price event_name ctx) w)) !! k =
       records w !! k).
Proof.
  unfold call. rewrite create_event_unfold. cbv zeta.
  destruct (msg_sender ctx) as [who|].
  - destruct (N.leb_spec (counter w + 1) U64_MAX) as [Hroom|Hfull].
    + split; [|split].
      * split; [intros _; split; [eauto|lia]|eauto].
      * intros reason w' [=].
      * intros k Hk. world_simpl. apply lookup_insert_ne. congruence.
    + split; [|split].
      * split; [intros (? & ? & [=])|intros (_ & ?); lia].
      * intros reason w' [= <- <-]. split; [reflexivity|].
        right. split; [reflexivity|lia].
      * reflexivity.
  - split; [|split].
    + split; [intros (? & ? & [=])|intros ([? [=]] & _)].
    + intros reason w' [= <- <-]. auto.
    + reflexivity.
Qed.

(** X9: [rsvp] keeps no account of who registers.  Two calls for the
    same event id with the same asset and amount attached, by any two
    callers that resolve, have the same outcome on the same registry. *)
Theorem rsvp_does_not_depend_on_the_caller event_id ctx1 ctx2 w :
  is_Some (msg_sender ctx1) →
  is_Some (msg_sender ctx2) →
  msg_asset_id ctx1 = msg_asset_id ctx2 →
  msg_amount ctx1 = msg_amount ctx2 →
  rsvp transfer event_id ctx1 w = rsvp transfer event_id ctx2 w.
Proof.
  intros [who1 H1] [who2 H2] Hasset Hamount.
  rewrite !rsvp_unfold, H1, H2, Hasset, Hamount. reflexivity.
Qed.

(** X10: registering for a key under which nothing is stored.  With the
    caller resolved and the base asset attached, the call is refused with
    [InvalidEventID] only while the counter is 0; once an event exists it
    goes through for any amount that [transfer] accepts: the amount is
    paid to the zero address and a zeroed record counted once is stored
    under the key and returned. *)
Theorem rsvp_for_an_absent_key event_id ctx who w :
  msg_sender ctx = Some who →
  msg_asset_id ctx = BASE_ASSET_ID →
  records w !! event_id = None →
  (counter w = 0 →
     call (rsvp transfer event_id ctx) w =
       (w, Err (RequireFailed InvalidEventID))) ∧
  (0 < counter w →
   ∀ b, transfer (msg_amount ctx) BASE_ASSET_ID (Address 0) (bank w) = Some b →
     ∃ w',
       call (rsvp transfer event_id ctx) w =
         (w', Ok {| unique_id := 0; max_capacity := 0; deposit := 0;
                    owner := Address 0; name := zero_name;
                    num_of_rsvps := 1 |}) ∧
       bank w' = b ∧
       records w' !! event_id =
         Some {| unique_id := 0; max_capacity := 0; deposit := 0;
                 owner := Address 0; name := zero_name;
                 num_of_rsvps := 1 |} ∧
       counter w' = counter w).
Proof.
  intros Hsender Hasset Habsent. split.
  - intros Hfresh. apply (rsvp_fresh_registry transfer _ _ who); assumption.
  - intros Hsome b Hpaid. eexists. split.
    + apply (rsvp_absent_key transfer _ _ who b); assumption.
    + world_simpl. split; [reflexivity|]. split; [|reflexivity].
      apply lookup_insert_eq.
Qed.

(** One call keeps the records stored at or beyond the counter zeroed
    up to a positive count. *)
Lemma step_beyond_counter rc w :
  (∀ k e, records w !! k = Some e → counter w ≤ k →
          zeroed_but_count e ∧ 0 < num_of_rsvps e) →
  ∀ k e, records (fst (step transfer rc w)) !! k = Some e →
         counter (fst (step transfer rc w)) ≤ k →
         zeroed_but_count e ∧ 0 < num_of_rsvps e.
Proof.
  intros Hinv.
  destruct rc as [[capacity price event_name|event_id|event_id] ctx];
    unfold step, dispatch, call; cbn [fst snd].
  - rewrite create_event_unfold. cbv zeta.
    destruct (msg_sender ctx); [|exact Hinv].
    destruct (_ <=? _); [|exact Hinv].
    world_simpl. intros k e He Hk.
    rewrite lookup_insert_ne in He by lia. apply (Hinv k e He). lia.
  - rewrite rsvp_unfold. cbv zeta.
    destruct (msg_sender ctx); [|exact Hinv].
    repeat (destruct (negb _); [exact Hinv|]).
    destruct (transfer _ _ _ _); [|exact Hinv].
    destruct (_ <=? _); [|exact Hinv].
    world_simpl. intros k e He Hk.
    destruct (decide (event_id = k)) as [->|Hne].
    + rewrite lookup_insert_eq in He. injection He as <-.
      unfold lookup_event, zeroed_but_count.
      cbn [with_num_of_rsvps unique_id max_capacity deposit owner name
           num_of_rsvps].
      destruct (records w !! k) as [e0|] eqn:He0; cbn [default].
      * destruct (Hinv k e0 He0 Hk) as [Hzero _]. split; [exact Hzero|lia].
      * split; [repeat split|lia].
    + rewrite lookup_insert_ne in He by assumption. apply (Hinv k e He Hk).
  - exact Hinv.
Qed.

(** X11: what can be stored under a key that was not issued.  In a
    reachable registry a record stored at or beyond the counter is never
    an event that someone created: its identifier, capacity and deposit
    are 0, its owner is the zero address, its name is the zeroed label
    and its count is positive; and at least one event exists. *)
Theorem records_beyond_counter_are_zeroed w k e :
  reachable transfer w →
  records w !! k = Some e →
  counter w ≤ k →
  unique_id e = 0 ∧ max_capacity e = 0 ∧ deposit e = 0 ∧
  owner e = Address 0 ∧ name e = zero_name ∧
  0 < num_of_rsvps e ∧ 0 < counter w.
Proof.
  intros Hreach He Hk.
  pose proof (reachable_record_id transfer w k e Hreach He) as Hid.
  assert (Hinv : ∀ k e, records w !! k = Some e → counter w ≤ k →
                        zeroed_but_count e ∧ 0 < num_of_rsvps e).
  { clear k e He Hk Hid. induction Hreach as [b|rc w _ IH].
    - intros k e He. cbn in He. rewrite lookup_empty in He. discriminate.
    - apply step_beyond_counter, IH. }
  destruct (Hinv k e He Hk) as [(?&?&?&?&?) ?].
  repeat split; try assumption. lia.
Qed.

End Registry.

(** ** Properties of the web client *)

Section ClientProperties.

Context {Bank : Type} (transfer : N → b256 → Identity → Bank → option Bank).
Context (wallet : Identity) (toNumber : N → option N).

Implicit Types (w : World Bank) (ui : AppState).

Local Abbreviation counter w := (event_id_counter (storage w)).
Local Abbreviation records w := (events (storage w)).

(** X12: the page never underpays.  Whatever is stored and whatever id
    is typed, the transaction that [rsvpToEvent] submits is not refused
    for the asset, for the amount or for the caller: it forwards, in the
    base asset, exactly the deposit it has just read. *)
Theorem rsvpToEvent_pays_what_is_asked ui w :
  ∀ reason,
    snd (rsvpToEvent transfer wallet toNumber ui w) = Failed (TxReverted reason) →
    reason = RequireFailed InvalidEventID ∨
    reason = TransferFailed ∨
    reason = ArithmeticOverflow.
Proof.
  intros reason. unfold rsvpToEvent.
  unfold call at 1. rewrite get_rsvp_unfold.
  destruct (toNumber (max_capacity _)); [|discriminate].
  unfold call. rewrite rsvp_unfold. cbv zeta.
  cbn [forward msg_sender msg_asset_id msg_amount].
  destruct (negb (_ <? _)); [cbn; intros [= <-]; auto|].
  rewrite N.eqb_refl, N.leb_refl. cbn [negb].
  destruct (transfer _ _ _ _); [|cbn; intros [= <-]; auto].
  destruct (_ <=? _); [|cbn; intros [= <-]; auto].
  destruct (toNumber _); discriminate.
Qed.

(** A run that ends in a failure alert. *)
Ltac no_success H :=
  injection H as <- <- <-;
  split; [reflexivity|]; split; [discriminate|]; split; [auto|];
  first [intros; reflexivity | intros ? [=]].

(** X13: what the page reports.  A run of [rsvpToEvent] always ends
    with [loading] off.  It alerts success only after a registration for
    the typed id has been committed: the transfer of the deposit read to
    the owner read has been made, the stored count is one above the count
    before, and that count is the one displayed, with [rsvpConfirmed]
    set.  After any other alert [rsvpConfirmed] and the displayed count
    are what they were; and when the alert is a reverted transaction the
    registry and the bank are what they were. *)
Theorem rsvpToEvent_reports ui w :
  let e := lookup_event (eventId ui) (storage w) in
  let w' := fst (fst (rsvpToEvent transfer wallet toNumber ui w)) in
  let ui' := snd (fst (rsvpToEvent transfer wallet toNumber ui w)) in
  let shown := snd (rsvpToEvent transfer wallet toNumber ui w) in
  loading ui' = false ∧
  (shown = RsvpSuccessful →
     rsvpConfirmed ui' = true ∧
     transfer (deposit e) BASE_ASSET_ID (owner e) (bank w) = Some (bank w') ∧
     num_of_rsvps (lookup_event (eventId ui) (storage w')) =
       num_of_rsvps e + 1 ∧
     toNumber (num_of_rsvps e + 1) = Some (numOfRSVPs ui')) ∧
  (shown ≠ RsvpSuccessful →
     rsvpConfirmed ui' = rsvpConfirmed ui ∧ numOfRSVPs ui' = numOfRSVPs ui) ∧
  (∀ reason, shown = Failed (TxReverted reason) → w' = w).
Proof.
  cbv zeta. destruct (rsvpToEvent transfer wallet toNumber ui w) as [[w' ui'] shown] eqn:Hpage.
  cbn [fst snd]. unfold rsvpToEvent in Hpage.
  unfold call at 1 in Hpage. rewrite get_rsvp_unfold in Hpage.
  destruct (toNumber (max_capacity _)) as [capacity|]; [|no_success Hpage].
  unfold call in Hpage. rewrite rsvp_unfold in Hpage. cbv zeta in Hpage.
  cbn [forward msg_sender msg_asset_id msg_amount] in Hpage.
  destruct (negb (_ <? _)); [no_success Hpage|].
  rewrite N.eqb_refl, N.leb_refl in Hpage. cbn [negb] in Hpage.
  destruct (transfer _ _ _ _) as [b|] eqn:Hpaid; [|no_success Hpage].
  destruct (_ <=? _); [|no_success Hpage].
  cbn [with_num_of_rsvps num_of_rsvps] in Hpage.
  destruct (toNumber _) as [count|] eqn:Hcount; [|no_success Hpage].
  injection Hpage as <- <- <-.
  split; [reflexivity|]. split; [|split; [|discriminate]].
  - intros _. split; [reflexivity|]. split; [reflexivity|].
    split; [|reflexivity].
    unfold lookup_event at 1. world_simpl. rewrite lookup_insert_eq.
    reflexivity.
  - intros Hno. contradiction Hno. reflexivity.
Qed.

(** X14: the page on an event that exists.  In a reachable registry,
    for a typed id that was issued, when both numbers to display fit,
    the transfer of the deposit to the owner succeeds and the count is
    below the last [u64], [rsvpToEvent] registers: the count stored under
    the id is raised by one, the bank is the one after that transfer, the
    page shows the name and the capacity of the event and the new count,
    keeps the typed id and alerts success. *)
Theorem rsvpToEvent_registers ui w e capacity count b :
  reachable transfer w →
  eventId ui < counter w →
  records w !! eventId ui = Some e →
  toNumber (max_capacity e) = Some capacity →
  toNumber (num_of_rsvps e + 1) = Some count →
  transfer (deposit e) BASE_ASSET_ID (owner e) (bank w) = Some b →
  num_of_rsvps e < U64_MAX →
  rsvpToEvent transfer wallet toNumber ui w =
    (world_with (eventId ui) (with_num_of_rsvps (num_of_rsvps e + 1) e)
       (counter w) b w,
     {| loading := false; eventName := name e; maxCap := capacity;
        rsvpConfirmed := true; numOfRSVPs := count; eventId := eventId ui |},
     RsvpSuccessful).
Proof.
  intros Hreach Hissued He Hcapacity Hcount Hpaid Hroom.
  destruct (reachable_consistent transfer w Hreach) as [_ Hid].
  destruct (Hid _ _ He) as [Hlt Hsame]. specialize (Hsame Hissued).
  assert (Hget : lookup_event (eventId ui) (storage w) = e)
    by (unfold lookup_event; rewrite He; reflexivity).
  unfold rsvpToEvent.
  unfold call at 1. rewrite get_rsvp_unfold, Hget, Hcapacity.
  unfold call.
  rewrite (rsvp_checks_passed transfer (eventId ui) _ wallet e w);
    [|reflexivity|exact Hget|exact Hlt|reflexivity|cbn; lia].
  cbn [forward msg_amount msg_asset_id]. rewrite Hpaid.
  destruct (N.leb_spec (num_of_rsvps e + 1) U64_MAX); [|lia].
  cbn [with_num_of_rsvps num_of_rsvps]. rewrite Hcount, Hsame.
  reflexivity.
Qed.

(** X15: the page on an id under which nothing is stored.  It reads the
    zeroed record, so it replaces the typed id by 0, shows the zeroed
    label and forwards no coins.  On a registry without events the
    transaction is refused with [InvalidEventID]; on any other registry
    it passes the three checks, and when [transfer] refuses the zero
    amount the page alerts that failure; in both cases nothing is
    registered. *)
Theorem rsvpToEvent_on_an_absent_key ui w zero :
  records w !! eventId ui = None →
  toNumber 0 = Some zero →
  let w' := fst (fst (rsvpToEvent transfer wallet toNumber ui w)) in
  let ui' := snd (fst (rsvpToEvent transfer wallet toNumber ui w)) in
  let shown := snd (rsvpToEvent transfer wallet toNumber ui w) in
  eventId ui' = 0 ∧ eventName ui' = zero_name ∧ maxCap ui' = zero ∧
  (counter w = 0 →
     shown = Failed (TxReverted (RequireFailed InvalidEventID)) ∧ w' = w) ∧
  (0 < counter w →
   transfer 0 BASE_ASSET_ID (Address 0) (bank w) = None →
     shown = Failed (TxReverted TransferFailed) ∧ w' = w).
Proof.
  intros Habsent Hzero. cbv zeta.
  assert (Hget : lookup_event (eventId ui) (storage w) = zero_event)
    by (unfold lookup_event; rewrite Habsent; reflexivity).
  destruct (rsvpToEvent transfer wallet toNumber ui w) as [[w' ui'] shown] eqn:Hpage.
  cbn [fst snd]. unfold rsvpToEvent in Hpage.
  unfold call at 1 in Hpage. rewrite get_rsvp_unfold, Hget in Hpage.
  cbn [zero_event max_capacity deposit unique_id name] in Hpage.
  rewrite Hzero in Hpage.
  unfold call in Hpage. rewrite rsvp_unfold, Hget in Hpage. cbv zeta in Hpage.
  cbn [forward msg_sender msg_asset_id msg_amount zero_event unique_id
       deposit owner num_of_rsvps] in Hpage.
  destruct (N.ltb_spec 0 (counter w)) as [Hsome|Hnone]; cbn [negb] in Hpage.
  - rewrite N.eqb_refl, N.leb_refl in Hpage. cbn [negb] in Hpage.
    destruct (transfer 0 BASE_ASSET_ID (Address 0) (bank w)) as [b|].
    + destruct (0 + 1 <=? U64_MAX);
        cbn [with_num_of_rsvps num_of_rsvps] in Hpage;
        [destruct (toNumber (0 + 1))|];
        injection Hpage as <- <- <-; repeat split; try discriminate; lia.
    + injection Hpage as <- <- <-. repeat split; lia.
  - injection Hpage as <- <- <-. repeat split; lia.
Qed.

End ClientProperties.

(** ** The further properties at work on the scenarios *)

Section MoreScenarios.

Import Ledger.

Local Abbreviation counter w := (event_id_counter (storage w)).
Local Abbreviation records w := (events (storage w)).

Lemma registration_count_accounts_witness :
  0 < counter w1 ∧
  records w1 !! 0 = Some (meetup_event 0) ∧
  registrations 0 (snd (replay transfer busy_history w1)) = 2%nat ∧
  ∃ e', records (fst (replay transfer busy_history w1)) !! 0 = Some e' ∧
        owner e' = alice ∧ deposit e' = 10 ∧ num_of_rsvps e' = 2.
Proof.
  assert (Hissued : 0 < counter w1) by reflexivity.
  assert (Hstored : records w1 !! 0 = Some (meetup_event 0))
    by (vm_compute; reflexivity).
  assert (Hcount : registrations 0 (snd (replay transfer busy_history w1)) = 2%nat)
    by (vm_compute; reflexivity).
  split; [exact Hissued|]. split; [exact Hstored|]. split; [exact Hcount|].
  destruct (registration_count_accounts transfer busy_history w1 0
              (meetup_event 0) Hissued Hstored)
    as (e' & He' & _ & Howner & _ & Hdeposit & _ & Hnum).
  exists e'. split; [exact He'|]. split; [exact Howner|].
  split; [exact Hdeposit|]. rewrite Hnum, Hcount. reflexivity.
Defined.

Lemma created_event_reads_back_witness :
  call (create_event 50 10 meetup_name (paying alice BASE_ASSET_ID 0)) w0 =
    (w1, Ok (meetup_event 0)) ∧
  ∃ e', call (get_rsvp 0 (paying bob BASE_ASSET_ID 0))
          (fst (replay transfer busy_history w1)) =
          (fst (replay transfer busy_history w1), Ok e') ∧
        owner e' = alice ∧ name e' = meetup_name ∧ num_of_rsvps e' = 2.
Proof.
  assert (Hcreated :
            call (create_event 50 10 meetup_name (paying alice BASE_ASSET_ID 0)) w0 =
              (w1, Ok (meetup_event 0))) by (vm_compute; reflexivity).
  split; [exact Hcreated|].
  destruct (created_event_reads_back transfer _ _ _ _ _ _ _ Hcreated
              busy_history (paying bob BASE_ASSET_ID 0))
    as (e' & Hread & _ & Howner & Hname & _ & _ & Hnum).
  exists e'. split; [exact Hread|]. split; [exact Howner|].
  split; [exact Hname|]. rewrite Hnum. vm_compute. reflexivity.
Defined.

Lemma issued_id_reads_back_witness :
  reachable transfer w_phantom ∧
  0 < counter w_phantom ∧
  ∃ e, call (get_rsvp 0 (paying bob BASE_ASSET_ID 0)) w_phantom =
         (w_phantom, Ok e) ∧
       unique_id e = 0.
Proof.
  assert (Hreach : reachable transfer w_phantom)
    by exact (reachable_step _ transfer _ _ w1_reachable).
  split; [exact Hreach|]. split; [reflexivity|].
  destruct (issued_id_reads_back transfer w_phantom 0
              (paying bob BASE_ASSET_ID 0) Hreach eq_refl)
    as (e & Hread & _ & Hid).
  exists e. split; [exact Hread|exact Hid].
Defined.

Lemma rsvp_does_not_depend_on_the_caller_witness :
  is_Some (msg_sender (paying alice BASE_ASSET_ID 10)) ∧
  is_Some (msg_sender (paying bob BASE_ASSET_ID 10)) ∧
  rsvp transfer 0 (paying alice BASE_ASSET_ID 10) w1 =
    rsvp transfer 0 (paying bob BASE_ASSET_ID 10) w1.
Proof.
  assert (Halice : is_Some (msg_sender (paying alice BASE_ASSET_ID 10)))
    by (exists alice; reflexivity).
  assert (Hbob : is_Some (msg_sender (paying bob BASE_ASSET_ID 10)))
    by (exists bob; reflexivity).
  split; [exact Halice|]. split; [exact Hbob|].
  exact (rsvp_does_not_depend_on_the_caller transfer 0 _ _ w1 Halice Hbob
           eq_refl eq_refl).
Defined.

Lemma rsvp_for_an_absent_key_witness :
  records w1 !! 7 = None ∧
  0 < counter w1 ∧
  ∃ w',
    call (rsvp transfer 7 (paying bob BASE_ASSET_ID 3)) w1 = (w', Ok phantom) ∧
    bank w' = [ {| payee := Address 0; asset := BASE_ASSET_ID; coins := 3 |} ] ∧
    records w' !! 7 = Some phantom.
Proof.
  assert (Habsent : records w1 !! 7 = None) by (vm_compute; reflexivity).
  split; [exact Habsent|]. split; [reflexivity|].
  destruct (rsvp_for_an_absent_key transfer 7 (paying bob BASE_ASSET_ID 3) bob w1
              eq_refl eq_refl Habsent) as [_ Hgoes].
  destruct (Hgoes eq_refl _ eq_refl) as (w' & Hcall & Hbank & Hstored & _).
  exists w'. split; [exact Hcall|]. split; [exact Hbank|exact Hstored].
Defined.

Lemma records_beyond_counter_are_zeroed_witness :
  reachable transfer w_phantom ∧
  records w_phantom !! 99 = Some phantom ∧
  counter w_phantom ≤ 99 ∧
  owner phantom = Address 0 ∧ deposit phantom = 0 ∧ 0 < num_of_rsvps phantom.
Proof.
  assert (Hreach : reachable transfer w_phantom)
    by exact (reachable_step _ transfer _ _ w1_reachable).
  assert (Hstored : records w_phantom !! 99 = Some phantom)
    by (vm_compute; reflexivity).
  assert (Hbeyond : counter w_phantom ≤ 99) by (vm_compute; discriminate).
  split; [exact Hreach|]. split; [exact Hstored|]. split; [exact Hbeyond|].
  destruct (records_beyond_counter_are_zeroed transfer w_phantom 99 phantom
              Hreach Hstored Hbeyond) as (_ & _ & Hdeposit & Howner & _ & Hnum & _).
  split; [exact Howner|]. split; [exact Hdeposit|exact Hnum].
Defined.

(** The page, first rendered with 0 typed, on the registry of scenario
    1: Bob's wallet pays the 10 coins of the deposit to Alice. *)
Lemma rsvpToEvent_registers_witness :
  reachable transfer w1 ∧
  eventId first_render < counter w1 ∧
  records w1 !! eventId first_render = Some (meetup_event 0) ∧
  rsvpToEvent transfer bob to_number first_render w1 =
    ({| storage := {| events := {[ 0 := meetup_event 1 ]};
                      event_id_counter := 1 |};
        bank := [ {| payee := alice; asset := BASE_ASSET_ID; coins := 10 |} ] |},
     {| loading := false; eventName := meetup_name; maxCap := 50;
        rsvpConfirmed := true; numOfRSVPs := 1; eventId := 0 |},
     RsvpSuccessful).
Proof.
  assert (Hstored : records w1 !! eventId first_render = Some (meetup_event 0))
    by (vm_compute; reflexivity).
  split; [exact w1_reachable|]. split; [reflexivity|]. split; [exact Hstored|].
  rewrite (rsvpToEvent_registers transfer bob to_number first_render w1
             (meetup_event 0) 50 1
             [ {| payee := alice; asset := BASE_ASSET_ID; coins := 10 |} ]
             w1_reachable eq_refl Hstored eq_refl eq_refl eq_refl eq_refl).
  vm_compute. reflexivity.
Defined.

(** The page with 7 typed, on the registry of scenario 1: nothing is
    stored under 7, no coins are forwarded and the transfer is refused. *)
Lemma rsvpToEvent_on_an_absent_key_witness :
  records w1 !! 7 = None ∧
  to_number 0 = Some 0 ∧
  eventId (snd (fst (rsvpToEvent transfer bob to_number
                       (setEventId 7 first_render) w1))) = 0 ∧
  snd (rsvpToEvent transfer bob to_number (setEventId 7 first_render) w1) =
    Failed (TxReverted TransferFailed).
Proof.
  assert (Habsent : records w1 !! eventId (setEventId 7 first_render) = None)
    by (vm_compute; reflexivity).
  split; [exact Habsent|]. split; [reflexivity|].
  destruct (rsvpToEvent_on_an_absent_key transfer bob to_number
              (setEventId 7 first_render) w1 0 Habsent eq_refl)
    as (Hid & _ & _ & _ & Hrefused).
  split; [exact Hid|]. apply Hrefused; reflexivity.
Defined.

Lemma identifiers_are_never_reused_witness :
  issued_ids (snd (replay transfer mixed_history w0)) = [0; 1] ∧
  NoDup (issued_ids (snd (replay transfer mixed_history w0))) ∧
  1 < counter (fst (replay transfer mixed_history w0)) ∧
  counter (fst (replay transfer mixed_history w0)) =
    counter w0 +
    N.of_nat (length (issued_ids (snd (replay transfer mixed_history w0)))).
Proof.
  assert (Hids : issued_ids (snd (replay transfer mixed_history w0)) = [0; 1])
    by (vm_compute; reflexivity).
  destruct (identifiers_are_never_reused transfer mixed_history w0)
    as (_ & Hnodup & Hrange & Hcounter).
  split; [exact Hids|]. split; [exact Hnodup|]. split; [|exact Hcounter].
  apply (Hrange 1). rewrite Hids. apply list_elem_of_In. right. left.
  reflexivity.
Defined.

Lemma registry_only_grows_witness :
  is_Some (records w_phantom !! 99) ∧
  is_Some (records (fst (replay transfer busy_history w_phantom)) !! 99) ∧
  counter w_phantom ≤ counter (fst (replay transfer busy_history w_phantom)).
Proof.
  assert (Hstored : is_Some (records w_phantom !! 99))
    by (exists phantom; vm_compute; reflexivity).
  destruct (registry_only_grows transfer busy_history w_phantom)
    as [Hkeys Hcounter].
  split; [exact Hstored|]. split; [exact (Hkeys 99 Hstored)|exact Hcounter].
Defined.

Lemma only_a_committed_rsvp_pays_witness :
  bank (fst (step transfer (meetup, paying alice BASE_ASSET_ID 0) w1)) = bank w1 ∨
  ∃ event_id e',
    meetup = Rsvp event_id ∧
    snd (step transfer (meetup, paying alice BASE_ASSET_ID 0) w1) = Ok e' ∧
    msg_asset_id (paying alice BASE_ASSET_ID 0) = BASE_ASSET_ID ∧
    transfer (msg_amount (paying alice BASE_ASSET_ID 0)) BASE_ASSET_ID
      (owner (lookup_event event_id (storage w1))) (bank w1) =
      Some (bank (fst (step transfer (meetup, paying alice BASE_ASSET_ID 0) w1))).
Proof.
  exact (only_a_committed_rsvp_pays transfer meetup
           (paying alice BASE_ASSET_ID 0) w1).
Defined.

Lemma rsvp_commits_iff_witness :
  ∃ e' w', call (rsvp transfer 0 (paying bob BASE_ASSET_ID 10)) w1 = (w', Ok e').
Proof.
  apply (rsvp_commits_iff transfer 0 (paying bob BASE_ASSET_ID 10) w1).
  split; [exists bob; reflexivity|]. split; [reflexivity|].
  split; [reflexivity|]. split; [vm_compute; discriminate|].
  split; [eexists; reflexivity|reflexivity].
Defined.

Lemma create_event_outcomes_witness :
  (∃ e w', call (create_event 50 10 meetup_name (paying alice BASE_ASSET_ID 0)) w0 =
             (w', Ok e)) ∧
  records (fst (call (create_event 50 10 meetup_name
                        (paying alice BASE_ASSET_ID 0)) w_phantom)) !! 99 =
    records w_phantom !! 99.
Proof.
  split.
  - apply (create_event_outcomes 50 10 meetup_name
             (paying alice BASE_ASSET_ID 0) w0).
    split; [exists alice; reflexivity|reflexivity].
  - apply (create_event_outcomes 50 10 meetup_name
             (paying alice BASE_ASSET_ID 0) w_phantom).
    vm_compute. discriminate.
Defined.

(** The page on the free event: the zero deposit is forwarded and the
    transfer of zero coins is refused. *)
Lemma rsvpToEvent_pays_what_is_asked_witness :
  snd (rsvpToEvent transfer bob to_number first_render w_free) =
    Failed (TxReverted TransferFailed) ∧
  (TransferFailed = RequireFailed InvalidEventID ∨
   TransferFailed = TransferFailed ∨
   TransferFailed = ArithmeticOverflow).
Proof.
  assert (Hshown : snd (rsvpToEvent transfer bob to_number first_render w_free) =
                   Failed (TxReverted TransferFailed))
    by (vm_compute; reflexivity).
  split; [exact Hshown|].
  exact (rsvpToEvent_pays_what_is_asked transfer bob to_number first_render
           w_free TransferFailed Hshown).
Defined.

Lemma rsvpToEvent_reports_witness :
  snd (rsvpToEvent transfer bob to_number first_render w1) = RsvpSuccessful ∧
  loading (snd (fst (rsvpToEvent transfer bob to_number first_render w1))) = false ∧
  rsvpConfirmed (snd (fst (rsvpToEvent transfer bob to_number first_render w1))) = true ∧
  to_number (num_of_rsvps (lookup_event (eventId first_render) (storage w1)) + 1) =
    Some (numOfRSVPs (snd (fst (rsvpToEvent transfer bob to_number first_render w1)))).
Proof.
  assert (Hshown : snd (rsvpToEvent transfer bob to_number first_render w1) =
                   RsvpSuccessful) by (vm_compute; reflexivity).
  destruct (rsvpToEvent_reports transfer bob to_number first_render w1)
    as (Hloading & Hsuccess & _).
  destruct (Hsuccess Hshown) as (Hconfirmed & _ & _ & Hcount).
  split; [exact Hshown|]. split; [exact Hloading|].
  split; [exact Hconfirmed|exact Hcount].
Defined.

(** *** Where the claims on [create_event] and [rsvp] stop holding *)

(** C2 fails as stated, in two ways.  In the registry whose counter is
    the last [u64], [create_event] by Alice stops on the overflow of the
    counter; and in the fresh registry a [create_event] whose caller does
    not resolve stops on the [unwrap].  Either way nothing is stored, the
    counter is not advanced and no record is returned. *)
Lemma create_event_needs_room_and_a_caller :
  (counter w_last_id = 18446744073709551615 ∧
   call (create_event 50 10 meetup_name (paying alice BASE_ASSET_ID 0)) w_last_id =
     (w_last_id, Err ArithmeticOverflow)) ∧
  (counter w0 = 0 ∧
   call (create_event 50 10 meetup_name (unresolved BASE_ASSET_ID 0)) w0 =
     (w0, Err UnwrapFailed)).
Proof. repeat split; vm_compute; reflexivity. Qed.

(** C4 fails as stated, in two ways.  On the stored event 0 (deposit
    10) a call whose caller does not resolve is refused for that, not
    with [NotEnoughTokens] when it underpays nor with [IncorrectAssetId]
    when it pays in asset 7.  And the identifier does not come first: 99
    was never issued (the counter is 1), yet a call for 99 paying in asset
    7 is refused for the asset, not with [InvalidEventID]. *)
Lemma rsvp_gating_not_as_stated :
  records w1 !! 0 = Some (meetup_event 0) ∧
  call (rsvp transfer 0 (unresolved BASE_ASSET_ID 5)) w1 =
    (w1, Err UnwrapFailed) ∧
  call (rsvp transfer 0 (unresolved 7 10)) w1 = (w1, Err UnwrapFailed) ∧
  counter w1 = 1 ∧
  call (rsvp transfer 99 (paying bob 7 10)) w1 =
    (w1, Err (RequireFailed IncorrectAssetId)).
Proof. repeat split; vm_compute; reflexivity. Qed.

(** C5 fails as stated, in three ways.  Each call below is for the
    stored event 0, in the base asset, with the deposit covered, and yet
    nothing is paid and no count is raised: on the event whose count is
    the last [u64] the increment overflows; a caller that does not resolve
    is refused for that; and on the free event the transfer of zero coins
    is refused. *)
Lemma rsvp_needs_room_a_caller_and_a_transfer :
  (records (w_count U64_MAX) !! 0 = Some (meetup_event 18446744073709551615) ∧
   deposit (meetup_event U64_MAX) ≤ 10 ∧
   call (rsvp transfer 0 (paying bob BASE_ASSET_ID 10)) (w_count U64_MAX) =
     (w_count U64_MAX, Err ArithmeticOverflow)) ∧
  (records w1 !! 0 = Some (meetup_event 0) ∧
   deposit (meetup_event 0) ≤ 10 ∧
   call (rsvp transfer 0 (unresolved BASE_ASSET_ID 10)) w1 =
     (w1, Err UnwrapFailed)) ∧
  (records w_free !! 0 = Some free_event ∧
   deposit free_event ≤ 0 ∧
   call (rsvp transfer 0 (paying bob BASE_ASSET_ID 0)) w_free =
     (w_free, Err TransferFailed)).
Proof.
  repeat split; try (vm_compute; reflexivity); vm_compute; discriminate.
Qed.

(** C9 fails as stated, in the same three ways: a call that satisfies
    the identifier, asset and amount preconditions does not succeed on an
    event whose count is the last [u64], nor when its caller does not
    resolve, nor when its transfer is refused. *)
Lemma rsvp_is_not_always_accepted :
  (records (w_count U64_MAX) !! 0 = Some (meetup_event U64_MAX) ∧
   deposit (meetup_event U64_MAX) ≤ 25 ∧
   ¬ ∃ e' w',
       call (rsvp transfer 0 (paying bob BASE_ASSET_ID 25)) (w_count U64_MAX) =
         (w', Ok e')) ∧
  (records w1 !! 0 = Some (meetup_event 0) ∧
   deposit (meetup_event 0) ≤ 25 ∧
   ¬ ∃ e' w',
       call (rsvp transfer 0 (unresolved BASE_ASSET_ID 25)) w1 = (w', Ok e')) ∧
  (records w_free !! 0 = Some free_event ∧
   deposit free_event ≤ 0 ∧
   ¬ ∃ e' w',
       call (rsvp transfer 0 (paying alice BASE_ASSET_ID 0)) w_free = (w', Ok e')).
Proof.
  repeat split; try (vm_compute; reflexivity);
    try (vm_compute; discriminate);
    intros (e' & w' & H); vm_compute in H; discriminate.
Qed.

End MoreScenarios.
